(** * Row grouping: db/records/operations/group.py

    A shallow embedding of the grouping module: the [GroupBy] request with its
    validation and column resolution, the dispatch to the two query builders,
    the queries they put together (the two CTEs of the percentile builder and
    the float bounds of its buckets included), and the post-processing step
    [extract_group_metadata] together with the parts of Python it leans on
    (dict operations, [json.dumps] / [json.loads], [set], [sorted]).

    Python exceptions are results [Raise e]; Python dicts are association
    lists in insertion order (the order [json.dumps] writes them in); a float
    is the rational it denotes. *)

From Stdlib Require Import List String Ascii ZArith QArith Qpower Qround Qabs Bool Lia.
From Stdlib Require Import Permutation.
From Stdlib Require Import Sorted DecimalString DecimalPos.
Import ListNotations.

Set Warnings "-register-all".
Local Open Scope string_scope.
Local Open Scope Z_scope.
Local Open Scope list_scope.

(* ------------------------------------------------------------------ *)
(** ** Values of the request *)

(** sqlalchemy's [Column] handle: its [name], and the table it is bound to. *)
Record Column : Type := mkColumn { name : string; owner : option string }.

(** The Python objects a [GroupBy] field can hold. A float carries the
    rational it denotes; nothing below computes with it. *)
Inductive pyobj : Type :=
| PNone
| PBool (b : bool)
| PInt (z : Z)
| PFloat (q : Q)
| PStr (s : string)
| PColumn (c : Column)
| PList (items : list pyobj)
| PTuple (items : list pyobj).

(** [rec_exc.BadGroupFormat] is raised at four places, told apart by message. *)
Inductive bad_group_format : Type :=
| ColumnListNotSequence          (* "column_list must be list or tuple." *)
| NumGroupsNotInteger            (* "percentile group_mode requires integer num_groups" *)
| ColumnBadType (col : pyobj)    (* "Group column {col} must be a string or Column." *)
| UnknownError.                  (* "Unknown error" *)

Inductive exn : Type :=
| BadGroupFormat (why : bad_group_format)
| InvalidGroupType (mode : string)
| GroupFieldNotFound (col : pyobj)
| TypeError
| AttributeError
| KeyError (key : string)
| ValueError
| ZeroDivisionError
| OverflowError
| InvalidRequestError (label : string).   (* sqlalchemy.exc *)

Inductive result (A : Type) : Type :=
| Ok (a : A)
| Raise (e : exn).
Arguments Ok {A} a.
Arguments Raise {A} e.

Definition bind {A B : Type} (m : result A) (k : A -> result B) : result B :=
  match m with
  | Ok a => k a
  | Raise e => Raise e
  end.

Notation "x <- m ;; k" := (bind m (fun x => k))
  (at level 61, m at next level, right associativity).
Notation "' p <- m ;; k" := (bind m (fun x => let p := x in k))
  (at level 61, p pattern, m at next level, right associativity).

(** A comprehension or loop whose body may raise: the first exception wins. *)
Fixpoint mapM {A B : Type} (f : A -> result B) (l : list A) : result (list B) :=
  match l with
  | [] => Ok []
  | x :: rest => y <- f x ;; ys <- mapM f rest ;; Ok (y :: ys)
  end.

(* ------------------------------------------------------------------ *)
(** ** GroupMode, GroupMetadataField, GroupBy *)

Definition MATHESAR_GROUP_METADATA : string := "__mathesar_group_metadata".

Inductive GroupMode : Type := DISTINCT | PERCENTILE.

Definition GroupMode_value (m : GroupMode) : string :=
  match m with
  | DISTINCT => "distinct"
  | PERCENTILE => "percentile"
  end.

Definition GroupMode_members : list GroupMode := [DISTINCT; PERCENTILE].

Inductive GroupMetadataField : Type := COUNT | GROUP_ID | FIRST_VALUE | LAST_VALUE.

Definition GroupMetadataField_value (f : GroupMetadataField) : string :=
  match f with
  | COUNT => "count"
  | GROUP_ID => "group_id"
  | FIRST_VALUE => "first_value"
  | LAST_VALUE => "last_value"
  end.

(** The frozen dataclass. [group_mode] is a [str] as annotated; [column_list]
    and [num_groups] are whatever the caller passed, since [validate] tests
    their types itself. *)
Record GroupBy : Type := mkGroupBy {
  column_list : pyobj;
  group_mode : string;
  num_groups : pyobj
}.

(** [GroupBy(column_list)] with the dataclass defaults. *)
Definition GroupBy_default (cols : pyobj) : GroupBy :=
  mkGroupBy cols (GroupMode_value DISTINCT) (PInt 12).

(** [type(o) in (tuple, list)], with the items when it holds. *)
Definition sequence_items (o : pyobj) : option (list pyobj) :=
  match o with
  | PList items | PTuple items => Some items
  | _ => None
  end.

(** [mode in {mode.value for mode in GroupMode}] *)
Definition is_group_mode (mode : string) : bool :=
  existsb (fun m => String.eqb mode (GroupMode_value m)) GroupMode_members.

(** [type(o) == int]: exact, so a [bool] does not pass. *)
Definition type_is_int (o : pyobj) : bool :=
  match o with
  | PInt _ => true
  | _ => false
  end.

(** [type(col) in (str, Column)] *)
Definition type_is_str_or_Column (col : pyobj) : bool :=
  match col with
  | PStr _ | PColumn _ => true
  | _ => false
  end.

(** The loop over [column_list] at the end of [validate]. *)
Fixpoint validate_columns (cols : list pyobj) : result unit :=
  match cols with
  | [] => Ok tt
  | col :: rest =>
      if type_is_str_or_Column col then validate_columns rest
      else Raise (BadGroupFormat (ColumnBadType col))
  end.

Definition validate (self : GroupBy) : result unit :=
  match sequence_items (column_list self) with
  | None => Raise (BadGroupFormat ColumnListNotSequence)
  | Some cols =>
      if negb (is_group_mode (group_mode self)) then
        Raise (InvalidGroupType (group_mode self))
      else if String.eqb (group_mode self) (GroupMode_value PERCENTILE)
              && negb (type_is_int (num_groups self)) then
        Raise (BadGroupFormat NumGroupsNotInteger)
      else validate_columns cols
  end.

(* ------------------------------------------------------------------ *)
(** ** Tables and column resolution *)

(** A table: its name and [table.columns], the collection keyed by column
    name. *)
Record Table : Type := mkTable {
  table_name : string;
  columns : list (string * Column)
}.

Fixpoint columns_get (key : string) (cols : list (string * Column)) : option Column :=
  match cols with
  | [] => None
  | (k, c) :: rest => if String.eqb key k then Some c else columns_get key rest
  end.

(** [key in table.columns] *)
Definition columns_contains (key : string) (cols : list (string * Column)) : bool :=
  match columns_get key cols with
  | Some _ => true
  | None => false
  end.

(** [col if isinstance(col, str) else col.name] *)
Definition column_reference_name (col : pyobj) : result string :=
  match col with
  | PStr s => Ok s
  | PColumn c => Ok (name c)
  | _ => Raise AttributeError
  end.

(** Modelled from the spec: [create_col_objects] of db/records/utils.py, which
    is not among the sources. The spec has resolution return "the ordered
    sequence of resolved column handles in the same order as column_list",
    each reference resolved by its name against the table's column set. *)
Definition create_col_objects (table : Table) (cols : list pyobj) : result (list Column) :=
  mapM (fun col =>
          col_name <- column_reference_name col ;;
          match columns_get col_name (columns table) with
          | Some c => Ok c
          | None => Raise (KeyError col_name)
          end) cols.

(** The membership loop of [get_validated_group_by_columns]. *)
Fixpoint check_columns_found (table : Table) (cols : list pyobj) : result unit :=
  match cols with
  | [] => Ok tt
  | col :: rest =>
      col_name <- column_reference_name col ;;
      if negb (columns_contains col_name (columns table)) then
        Raise (GroupFieldNotFound col)
      else check_columns_found table rest
  end.

(** Iterating [self.column_list]: a list or tuple gives its items. After
    [validate] nothing else gets here. *)
Definition iterate (o : pyobj) : result (list pyobj) :=
  match sequence_items o with
  | Some items => Ok items
  | None => Raise TypeError
  end.

Definition get_validated_group_by_columns (self : GroupBy) (table : Table)
  : result (list Column) :=
  _ <- validate self ;;
  cols <- iterate (column_list self) ;;
  _ <- check_columns_found table cols ;;
  create_col_objects table cols.

(* ------------------------------------------------------------------ *)
(** ** Python floats

    A float is the rational it denotes. Python's [a / b] on two ints is the
    exact quotient rounded once to the nearest IEEE 754 double, ties to even;
    PostgreSQL's [double precision] holds the same doubles. *)

Definition pow2 (e : Z) : Q := (2 ^ e)%Q.

(** For a positive [x], the [e] with [2^e <= x < 2^(e+1)]. *)
Definition floor_log2 (x : Q) : Z :=
  let e := Z.log2 (Qnum x) - Z.log2 (Zpos (Qden x)) in
  if Qle_bool (pow2 e) x then e else e - 1.

(** The nearest integer, the even one of two equally near. *)
Definition round_half_even (m : Q) : Z :=
  let f := Qfloor m in
  match (m - inject_Z f ?= 1 # 2)%Q with
  | Lt => f
  | Eq => if Z.even f then f else f + 1
  | Gt => f + 1
  end.

(** A positive [x] to 53 significant bits, or to a multiple of [2^-1074]
    below the normal range. *)
Definition round_positive (x : Q) : Q :=
  let e := Z.max (floor_log2 x) (-1022) in
  let ulp := pow2 (e - 52) in
  (inject_Z (round_half_even (x / ulp)) * ulp)%Q.

Definition round_double (x : Q) : Q :=
  Qred (match Qnum x with
        | Z0 => 0
        | Zpos _ => round_positive x
        | Zneg _ => - round_positive (- x)
        end)%Q.

(** [a / b] on ints. *)
Definition py_truediv (a b : Z) : result Q :=
  if b =? 0 then Raise ZeroDivisionError
  else
    let q := round_double (inject_Z a / inject_Z b) in
    if Qle_bool (pow2 1024) (Qabs q) then Raise OverflowError else Ok q.

(* ------------------------------------------------------------------ *)
(** ** Query builders *)

Definition CUME_DIST : string := "cume_dist".
Definition RANGE_ID : string := "range_id".

(** The conditions the percentile builder puts on the [cume_dist] column of
    its first CTE; a bound is the float Python has computed. *)
Inductive sqlexpr : Type :=
| CumeDistGt (bound : Q)             (* cume_dist_cte.columns[CUME_DIST] > bound *)
| CumeDistLe (bound : Q)             (* cume_dist_cte.columns[CUME_DIST] <= bound *)
| and_ (a b : sqlexpr).

(** The expressions of the select lists. *)
Inductive sql : Type :=
| literal (s : string)
| column_ref (c : Column)
| columns_ref (cols : list Column)
| dense_rank_over (order : list Column) (range : option Z * option Z)
    (* func.dense_rank().over(order_by=..., range_=...) *)
| json_build_object (args : list sql)
| count_over (p : sql)
    (* func.count(1).over(partition_by=...) *)
| first_value_over (arg : sql) (p : sql) (order : list Column)
    (range : option Z * option Z)
| last_value_over (arg : sql) (p : sql) (order : list Column)
    (range : option Z * option Z)
| labelled (e : sql) (label : string).

(** [partition_by] holds the list of grouping columns in one builder and a
    single column in the other. *)
Record GroupingWindowDefinition : Type := mkGroupingWindowDefinition {
  partition_by : sql;
  order_by : list Column;
  range_ : option Z * option Z
}.

(** [GroupingWindowDefinition(order_by=..., partition_by=...)]: [range_] is
    not an init argument and keeps its default. *)
Definition GroupingWindowDefinition_init (p : sql) (o : list Column)
  : GroupingWindowDefinition :=
  mkGroupingWindowDefinition p o (None, None).

Definition _get_group_metadata_definition
  (window_def : GroupingWindowDefinition) (grouping_columns : list Column)
  (group_id_expr : sql) : sql :=
  let col_key_value_list :=
    flat_map (fun col => [literal (name col); column_ref col]) grouping_columns in
  let inner_grouping_object := json_build_object col_key_value_list in
  labelled
    (json_build_object
       [literal (GroupMetadataField_value GROUP_ID);
        group_id_expr;
        literal (GroupMetadataField_value COUNT);
        count_over (partition_by window_def);
        literal (GroupMetadataField_value FIRST_VALUE);
        first_value_over inner_grouping_object (partition_by window_def)
          (order_by window_def) (range_ window_def);
        literal (GroupMetadataField_value LAST_VALUE);
        last_value_over inner_grouping_object (partition_by window_def)
          (order_by window_def) (range_ window_def)])
    MATHESAR_GROUP_METADATA.

(** What a CTE computes beside the columns it passes on. *)
Inductive computed : Type :=
| CumeDistOver (order : list Column)   (* func.cume_dist().over(order_by=...) *)
| Case (whens : list (sqlexpr * Z)).   (* case( *ranges) *)

(** What is selected from: the table, or
    [select( *selected, expr.label(label)).cte()] over another relation. *)
Inductive relation : Type :=
| FromTable (t : Table)
| FromCte (source : relation) (selected : list Column) (expr : computed) (label : string).

(** [.columns] of a relation. A CTE has a handle of its own for each column
    selected, then one for the label. sqlalchemy builds that collection when
    it is first asked for, and raises [InvalidRequestError] rather than rename
    an explicit label that a column selected before it has the name of. *)
Definition relation_columns (r : relation) : result (list Column) :=
  match r with
  | FromTable t => Ok (map snd (columns t))
  | FromCte _ selected _ label =>
      if existsb (fun col => String.eqb (name col) label) selected then
        Raise (InvalidRequestError label)
      else Ok (map (fun col => mkColumn (name col) None) selected ++ [mkColumn label None])
  end.

(** [cols[key]] on such a collection. *)
Fixpoint column_named (key : string) (cols : list Column) : result Column :=
  match cols with
  | [] => Raise (KeyError key)
  | col :: rest => if String.eqb key (name col) then Ok col else column_named key rest
  end.

(** What a builder returns, [select( *columns, metadata)]: the columns and
    the metadata expression selected, and the relation they come from. *)
Record query : Type := mkQuery {
  query_from : relation;
  query_columns : list Column;
  query_metadata : sql
}.

Definition _get_distinct_group_select (table : Table) (grouping_columns : list Column)
  : query :=
  let window_def :=
    GroupingWindowDefinition_init (columns_ref grouping_columns) grouping_columns in
  let group_id_expr := dense_rank_over (order_by window_def) (range_ window_def) in
  mkQuery (FromTable table) (map snd (columns table))
    (_get_group_metadata_definition window_def grouping_columns group_id_expr).

(** [range(n)] *)
Definition py_range (n : Z) : list Z :=
  map Z.of_nat (seq 0 (Z.to_nat n)).

(** The [ranges] comprehension of the percentile builder. *)
Definition percentile_ranges (n : Z) : result (list (sqlexpr * Z)) :=
  mapM (fun i =>
          lower <- py_truediv i n ;;
          upper <- py_truediv (i + 1) n ;;
          Ok (and_ (CumeDistGt lower) (CumeDistLe upper), i + 1))
       (py_range n).

(** [range(num_groups)] accepts an int (a bool is one) and nothing else. *)
Definition as_range_argument (o : pyobj) : result Z :=
  match o with
  | PInt z => Ok z
  | PBool b => Ok (Z.b2z b)
  | _ => Raise TypeError
  end.

(** [range(num_groups)] is evaluated before the comprehension first looks
    into [cume_dist_cte.columns]; with no bucket to build, the select list of
    [ranges_cte] is the first to look there. *)
Definition _get_percentile_range_group_select
  (table : Table) (cols : list Column) (n : pyobj) : result query :=
  let column_names := map name cols in
  let cume_dist_cte :=
    FromCte (FromTable table) (map snd (columns table)) (CumeDistOver cols) CUME_DIST in
  n' <- as_range_argument n ;;
  cume_dist_columns <- relation_columns cume_dist_cte ;;
  ranges <- percentile_ranges n' ;;
  let ranges_cte :=
    FromCte cume_dist_cte
      (filter (fun col => negb (String.eqb (name col) CUME_DIST)) cume_dist_columns)
      (Case ranges) RANGE_ID in
  ranges_columns <- relation_columns ranges_cte ;;
  let ranges_agg_cols :=
    filter (fun col => existsb (String.eqb (name col)) column_names) ranges_columns in
  range_id <- column_named RANGE_ID ranges_columns ;;
  let window_def := GroupingWindowDefinition_init (column_ref range_id) ranges_agg_cols in
  let group_id_expr := partition_by window_def in
  Ok (mkQuery ranges_cte
        (filter (fun col => columns_contains (name col) (columns table)) ranges_columns)
        (_get_group_metadata_definition window_def ranges_agg_cols group_id_expr)).

Definition get_group_augmented_records_query (table : Table) (group_by : GroupBy)
  : result query :=
  grouping_columns <- get_validated_group_by_columns group_by table ;;
  if String.eqb (group_mode group_by) (GroupMode_value PERCENTILE) then
    _get_percentile_range_group_select table grouping_columns (num_groups group_by)
  else if String.eqb (group_mode group_by) (GroupMode_value DISTINCT) then
    Ok (_get_distinct_group_select table grouping_columns)
  else Raise (BadGroupFormat UnknownError).

(** *** What the bucket expression evaluates to

    [cume_dist] is a double, compared with the bounds as doubles. SQL's
    [CASE WHEN c1 THEN v1 ... END] takes the first branch whose condition
    holds and is NULL when none does; without any branch it is [CASE END],
    which PostgreSQL refuses as a syntax error. *)
Fixpoint eval_sqlexpr (e : sqlexpr) (cume_dist : Q) : bool :=
  match e with
  | CumeDistGt bound => negb (Qle_bool cume_dist bound)
  | CumeDistLe bound => Qle_bool cume_dist bound
  | and_ a b => eval_sqlexpr a cume_dist && eval_sqlexpr b cume_dist
  end.

Inductive case_outcome : Type :=
| CaseSyntaxError
| CaseNull
| CaseValue (label : Z).

Fixpoint first_branch (whens : list (sqlexpr * Z)) (cume_dist : Q) : option Z :=
  match whens with
  | [] => None
  | (cond, label) :: rest =>
      if eval_sqlexpr cond cume_dist then Some label else first_branch rest cume_dist
  end.

Definition eval_case (whens : list (sqlexpr * Z)) (cume_dist : Q) : case_outcome :=
  match whens with
  | [] => CaseSyntaxError
  | _ :: _ =>
      match first_branch whens cume_dist with
      | Some label => CaseValue label
      | None => CaseNull
      end
  end.

(* ------------------------------------------------------------------ *)
(** ** Records and their values *)

(** What a materialised row holds: the values JSON can carry. A dict is the
    list of its items in insertion order, its keys strings. Floats are left
    out of the model. *)
Inductive value : Type :=
| VNone
| VBool (b : bool)
| VInt (z : Z)
| VStr (s : string)
| VList (items : list value)
| VDict (items : list (string * value)).

Definition dict : Type := list (string * value).

(** [d.get(key)] *)
Fixpoint dict_get (key : string) (d : dict) : option value :=
  match d with
  | [] => None
  | (k, v) :: rest => if String.eqb key k then Some v else dict_get key rest
  end.

(** [d[key] = v]: an existing key keeps its place, a new one goes last. *)
Fixpoint dict_set (key : string) (v : value) (d : dict) : dict :=
  match d with
  | [] => [(key, v)]
  | (k, v') :: rest =>
      if String.eqb key k then (k, v) :: rest else (k, v') :: dict_set key v rest
  end.

(** [dict(pairs)], also what a dict display [{k1: v1, ...}] builds. *)
Definition dict_of_pairs (pairs : list (string * value)) : dict :=
  fold_left (fun d kv => dict_set (fst kv) (snd kv) d) pairs [].

(** [a | b] on two dicts. *)
Definition dict_or (a b : dict) : dict :=
  fold_left (fun d kv => dict_set (fst kv) (snd kv) d) b a.

(** [{k: v for k, v in d.items() if k != key}] *)
Definition dict_without (key : string) (d : dict) : dict :=
  filter (fun kv => negb (String.eqb (fst kv) key)) d.

(** The keys of a dict are distinct, at every depth. *)
Fixpoint distinct_keys (keys : list string) : bool :=
  match keys with
  | [] => true
  | k :: rest => negb (existsb (String.eqb k) rest) && distinct_keys rest
  end.

Fixpoint well_formed (v : value) : bool :=
  match v with
  | VList items => forallb well_formed items
  | VDict items =>
      distinct_keys (map fst items) && forallb (fun kv => well_formed (snd kv)) items
  | _ => true
  end.

(** *** Comparison, as [sorted] uses it *)

(** [a == b]: a bool is the int 0 or 1, dicts compare without regard to the
    order of their keys, values of different types are unequal. *)
Fixpoint py_eq (a b : value) {struct a} : bool :=
  match a, b with
  | VNone, VNone => true
  | VBool x, VBool y => Z.eqb (Z.b2z x) (Z.b2z y)
  | VBool x, VInt y => Z.eqb (Z.b2z x) y
  | VInt x, VBool y => Z.eqb x (Z.b2z y)
  | VInt x, VInt y => Z.eqb x y
  | VStr x, VStr y => String.eqb x y
  | VList xs, VList ys =>
      (fix go (xs ys : list value) {struct xs} : bool :=
         match xs, ys with
         | [], [] => true
         | x :: xs', y :: ys' => py_eq x y && go xs' ys'
         | _, _ => false
         end) xs ys
  | VDict xs, VDict ys =>
      Nat.eqb (List.length xs) (List.length ys)
      && forallb (fun kv =>
                    match dict_get (fst kv) ys with
                    | Some y => py_eq (snd kv) y
                    | None => false
                    end) xs
  | _, _ => false
  end.

(** [a < b]: numbers by value, strings and lists lexicographically; any other
    pairing is a [TypeError]. *)
Fixpoint py_lt (a b : value) {struct a} : result bool :=
  match a, b with
  | VBool x, VBool y => Ok (Z.ltb (Z.b2z x) (Z.b2z y))
  | VBool x, VInt y => Ok (Z.ltb (Z.b2z x) y)
  | VInt x, VBool y => Ok (Z.ltb x (Z.b2z y))
  | VInt x, VInt y => Ok (Z.ltb x y)
  | VStr x, VStr y => Ok (String.ltb x y)
  | VList xs, VList ys =>
      (fix go (xs ys : list value) {struct xs} : result bool :=
         match xs, ys with
         | [], [] => Ok false
         | [], _ :: _ => Ok true
         | _ :: _, [] => Ok false
         | x :: xs', y :: ys' => if py_eq x y then go xs' ys' else py_lt x y
         end) xs ys
  | _, _ => Raise TypeError
  end.

(** [x[key]] for a string [key]: only a dict can be subscripted by one. *)
Definition subscript (x : value) (key : string) : result value :=
  match x with
  | VDict d =>
      match dict_get key d with
      | Some v => Ok v
      | None => Raise (KeyError key)
      end
  | _ => Raise TypeError
  end.

(** [sorted(xs, key=f)]: every key is computed first, then the items are
    placed one by one, each behind the items whose key is not greater (the
    sort is stable). The only comparison is [<] on keys, the new item's key on
    the left, as in CPython's insertion step. *)
Fixpoint insert_sorted {A : Type} (kx : value * A) (acc : list (value * A))
  : result (list (value * A)) :=
  match acc with
  | [] => Ok [kx]
  | ky :: rest =>
      lt <- py_lt (fst kx) (fst ky) ;;
      if (lt : bool) then Ok (kx :: ky :: rest)
      else rest' <- insert_sorted kx rest ;; Ok (ky :: rest')
  end.

Fixpoint sort_into {A : Type} (acc todo : list (value * A)) : result (list (value * A)) :=
  match todo with
  | [] => Ok acc
  | kx :: rest => acc' <- insert_sorted kx acc ;; sort_into acc' rest
  end.

Definition sorted {A : Type} (xs : list A) (key : A -> result value) : result (list A) :=
  keyed <- mapM (fun x => k <- key x ;; Ok (k, x)) xs ;;
  out <- sort_into [] keyed ;;
  Ok (map snd out).

(* ------------------------------------------------------------------ *)
(** ** json.dumps and json.loads

    With the default arguments: items separated by [", "], key and value by
    [": "], every character outside the printable ASCII range written as an
    escape. A string is a sequence of code points below 256. *)

Definition chars : Type := list ascii.

Definition chars_of (s : string) : chars := list_ascii_of_string s.

Definition char_code (c : ascii) : N := N_of_ascii c.

Definition hex_digit (n : N) : ascii :=
  nth (N.to_nat n) (chars_of "0123456789abcdef") "0"%char.

Definition quote : ascii := ascii_of_N 34.
Definition backslash : ascii := ascii_of_N 92.

(** One character of a string, as [py_encode_basestring_ascii] writes it:
    a short escape where [ESCAPE_DCT] has one, itself when printable, the
    four-digit escape of its code otherwise. *)
Definition escape_char (c : ascii) : chars :=
  let n := char_code c in
  if N.eqb n 34 then [backslash; quote]
  else if N.eqb n 92 then [backslash; backslash]
  else if N.eqb n 8 then [backslash; "b"%char]
  else if N.eqb n 12 then [backslash; "f"%char]
  else if N.eqb n 10 then [backslash; "n"%char]
  else if N.eqb n 13 then [backslash; "r"%char]
  else if N.eqb n 9 then [backslash; "t"%char]
  else if N.leb 32 n && N.leb n 126 then [c]
  else backslash :: chars_of "u00" ++ [hex_digit (N.div n 16); hex_digit (N.modulo n 16)].

Definition encode_string (s : string) : chars :=
  quote :: flat_map escape_char (chars_of s) ++ [quote].

(** [separator.join(parts)] *)
Fixpoint join (separator : chars) (parts : list chars) : chars :=
  match parts with
  | [] => []
  | [p] => p
  | p :: rest => p ++ separator ++ join separator rest
  end.

(** [repr] of an int. *)
Definition encode_int (z : Z) : chars :=
  match z with
  | Z0 => chars_of "0"
  | Zpos p => chars_of (NilEmpty.string_of_uint (Pos.to_uint p))
  | Zneg p => "-"%char :: chars_of (NilEmpty.string_of_uint (Pos.to_uint p))
  end.

Fixpoint encode (v : value) : chars :=
  match v with
  | VNone => chars_of "null"
  | VBool true => chars_of "true"
  | VBool false => chars_of "false"
  | VInt z => encode_int z
  | VStr s => encode_string s
  | VList items =>
      chars_of "[" ++ join (chars_of ", ") (map encode items) ++ chars_of "]"
  | VDict items =>
      chars_of "{"
      ++ join (chars_of ", ")
              (map (fun kv => encode_string (fst kv) ++ chars_of ": " ++ encode (snd kv))
                   items)
      ++ chars_of "}"
  end.

Definition dumps (v : value) : string := string_of_list_ascii (encode v).

(** *** The decoder *)

Definition is_whitespace (c : ascii) : bool :=
  let n := char_code c in
  N.eqb n 32 || N.eqb n 9 || N.eqb n 10 || N.eqb n 13.

Fixpoint skip_whitespace (s : chars) : chars :=
  match s with
  | c :: rest => if is_whitespace c then skip_whitespace rest else s
  | [] => []
  end.

Definition is_digit (c : ascii) : bool :=
  let n := char_code c in
  N.leb 48 n && N.leb n 57.

Definition hex_value (c : ascii) : option N :=
  let n := char_code c in
  if N.leb 48 n && N.leb n 57 then Some (n - 48)%N
  else if N.leb 97 n && N.leb n 102 then Some (n - 87)%N
  else if N.leb 65 n && N.leb n 70 then Some (n - 55)%N
  else None.

(** The character a backslash escape stands for. *)
Definition unescape_char (c : ascii) : option ascii :=
  let n := char_code c in
  if N.eqb n 34 then Some c
  else if N.eqb n 92 then Some c
  else if N.eqb n 47 then Some c
  else if N.eqb n 98 then Some (ascii_of_N 8)
  else if N.eqb n 102 then Some (ascii_of_N 12)
  else if N.eqb n 110 then Some (ascii_of_N 10)
  else if N.eqb n 114 then Some (ascii_of_N 13)
  else if N.eqb n 116 then Some (ascii_of_N 9)
  else None.

Definition hex4 (a b c d : ascii) : option N :=
  match hex_value a, hex_value b, hex_value c, hex_value d with
  | Some x, Some y, Some z, Some w => Some (((x * 16 + y) * 16 + z) * 16 + w)%N
  | _, _, _, _ => None
  end.

Definition cons_fst {A B : Type} (a : A) (r : option (list A * B)) : option (list A * B) :=
  match r with
  | Some (l, b) => Some (a :: l, b)
  | None => None
  end.

(** The body of a string up to its closing quote, and what follows it. An
    unescaped control character is refused; so is a code point above 255,
    which the model's strings cannot hold. *)
Fixpoint scan_string (s : chars) : option (chars * chars) :=
  match s with
  | [] => None
  | c :: rest =>
      if N.eqb (char_code c) 34 then Some ([], rest)
      else if N.eqb (char_code c) 92 then
        match rest with
        | [] => None
        | e :: rest1 =>
            if N.eqb (char_code e) 117 then
              match rest1 with
              | h1 :: h2 :: h3 :: h4 :: rest2 =>
                  match hex4 h1 h2 h3 h4 with
                  | Some n =>
                      if N.ltb n 256 then cons_fst (ascii_of_N n) (scan_string rest2)
                      else None
                  | None => None
                  end
              | _ => None
              end
            else
              match unescape_char e with
              | Some d => cons_fst d (scan_string rest1)
              | None => None
              end
        end
      else if N.ltb (char_code c) 32 then None
      else cons_fst c (scan_string rest)
  end.

(** The longest prefix of digits, and the rest. *)
Fixpoint span_digits (s : chars) : chars * chars :=
  match s with
  | c :: rest =>
      if is_digit c then let (ds, r) := span_digits rest in (c :: ds, r)
      else ([], s)
  | [] => ([], [])
  end.

(** The integer part of a number: a lone [0], or digits not starting with 0. *)
Definition decode_digits (s : chars) : option (N * chars) :=
  match s with
  | [] => None
  | c :: rest =>
      if N.eqb (char_code c) 48 then Some (0%N, rest)
      else if is_digit c then
        let (ds, r) := span_digits s in
        match NilEmpty.uint_of_string (string_of_list_ascii ds) with
        | Some d => Some (N.of_uint d, r)
        | None => None
        end
      else None
  end.

(** A fraction or an exponent would make the number a float. *)
Definition starts_fraction (s : chars) : bool :=
  match s with
  | c :: _ =>
      let n := char_code c in N.eqb n 46 || N.eqb n 101 || N.eqb n 69
  | [] => false
  end.

Definition decode_number (s : chars) : option (value * chars) :=
  let (negative, s1) :=
    match s with
    | c :: rest => if N.eqb (char_code c) 45 then (true, rest) else (false, s)
    | [] => (false, s)
    end in
  match decode_digits s1 with
  | Some (n, r) =>
      if starts_fraction r then None
      else Some (VInt (if negative : bool then - Z.of_N n else Z.of_N n), r)
  | None => None
  end.

(** [s] without the prefix [p], when it has it. *)
Fixpoint strip_prefix (p s : chars) : option chars :=
  match p, s with
  | [], _ => Some s
  | a :: p', b :: s' => if Ascii.eqb a b then strip_prefix p' s' else None
  | _ :: _, [] => None
  end.

Definition first_is (c : ascii) (s : chars) : option chars :=
  strip_prefix [c] s.

(** One JSON value, then the items of an array after its first bracket, then
    the members of an object. [fuel] bounds the calls; the length of the text
    is always enough. *)
Fixpoint decode_value (fuel : nat) (s : chars) {struct fuel} : option (value * chars) :=
  match fuel with
  | O => None
  | S fuel' =>
      let s := skip_whitespace s in
      match strip_prefix (chars_of "null") s with
      | Some r => Some (VNone, r)
      | None =>
      match strip_prefix (chars_of "true") s with
      | Some r => Some (VBool true, r)
      | None =>
      match strip_prefix (chars_of "false") s with
      | Some r => Some (VBool false, r)
      | None =>
      match first_is quote s with
      | Some r =>
          match scan_string r with
          | Some (body, r') => Some (VStr (string_of_list_ascii body), r')
          | None => None
          end
      | None =>
      match first_is "["%char s with
      | Some r =>
          match first_is "]"%char (skip_whitespace r) with
          | Some r' => Some (VList [], r')
          | None =>
              match decode_items fuel' r with
              | Some (items, r') => Some (VList items, r')
              | None => None
              end
          end
      | None =>
      match first_is "{"%char s with
      | Some r =>
          match first_is "}"%char (skip_whitespace r) with
          | Some r' => Some (VDict [], r')
          | None =>
              match decode_members fuel' r with
              | Some (pairs, r') => Some (VDict (dict_of_pairs pairs), r')
              | None => None
              end
          end
      | None => decode_number s
      end end end end end end
  end

with decode_items (fuel : nat) (s : chars) {struct fuel} : option (list value * chars) :=
  match fuel with
  | O => None
  | S fuel' =>
      match decode_value fuel' s with
      | Some (v, r) =>
          let r := skip_whitespace r in
          match first_is ","%char r with
          | Some r' => cons_fst v (decode_items fuel' r')
          | None =>
              match first_is "]"%char r with
              | Some r' => Some ([v], r')
              | None => None
              end
          end
      | None => None
      end
  end

with decode_members (fuel : nat) (s : chars) {struct fuel}
  : option (list (string * value) * chars) :=
  match fuel with
  | O => None
  | S fuel' =>
      match first_is quote (skip_whitespace s) with
      | Some r =>
          match scan_string r with
          | Some (key, r1) =>
              match first_is ":"%char (skip_whitespace r1) with
              | Some r2 =>
                  match decode_value fuel' r2 with
                  | Some (v, r3) =>
                      let kv := (string_of_list_ascii key, v) in
                      let r3 := skip_whitespace r3 in
                      match first_is ","%char r3 with
                      | Some r4 => cons_fst kv (decode_members fuel' r4)
                      | None =>
                          match first_is "}"%char r3 with
                          | Some r4 => Some ([kv], r4)
                          | None => None
                          end
                      end
                  | None => None
                  end
              | None => None
              end
          | None => None
          end
      | None => None
      end
  end.

(** [json.loads]: one value and nothing but whitespace after it; anything
    else is a [JSONDecodeError], which is a [ValueError]. *)
Definition loads (s : string) : result value :=
  match decode_value (S (String.length s)) (chars_of s) with
  | Some (v, r) =>
      match skip_whitespace r with
      | [] => Ok v
      | _ :: _ => Raise ValueError
      end
  | None => Raise ValueError
  end.

(* ------------------------------------------------------------------ *)
(** ** Sets of strings

    [set(xs)] keeps one copy of every string; the order in which the set is
    then iterated depends on the hashes and is not specified. Whatever holds
    below holds for every such order. *)
Class SetOrder : Type := {
  set_list : list string -> list string;
  set_list_NoDup : forall xs, NoDup (set_list xs);
  set_list_In : forall xs x, In x (set_list xs) <-> In x xs
}.

(** One order a set may have: each string where it was last seen. *)
Definition last_seen (xs : list string) : list string := nodup string_dec xs.

(* ------------------------------------------------------------------ *)
(** ** extract_group_metadata *)

(** [v.items()] and [v.get]: only a dict has them. *)
Definition dict_items (v : value) : result dict :=
  match v with
  | VDict items => Ok items
  | _ => Raise AttributeError
  end.

(** [d.get(key, default)] *)
Definition dict_get_default (key : string) (d : dict) (default : value) : value :=
  match dict_get key d with
  | Some v => v
  | None => default
  end.

(** [a | b]: defined between two dicts, a [TypeError] otherwise. *)
Definition py_or (a b : value) : result value :=
  match a, b with
  | VDict x, VDict y => Ok (VDict (dict_or x y))
  | _, _ => Raise TypeError
  end.

(** Truth value of an object. *)
Definition truthy (v : value) : bool :=
  match v with
  | VNone => false
  | VBool b => b
  | VInt z => negb (Z.eqb z 0)
  | VStr s => negb (String.eqb s "")
  | VList items => negb (Nat.eqb (List.length items) 0)
  | VDict items => negb (Nat.eqb (List.length items) 0)
  end.

Definition group_id_key : string := GroupMetadataField_value GROUP_ID.

(** The sort key [lambda x: x[GroupMetadataField.GROUP_ID.value]]. *)
Definition group_id_of (x : value) : result value := subscript x group_id_key.

Section Extract.

Context {set_order : SetOrder}.

(** The keys of the two sections of a record, "data" and "metadata" unless
    the caller names others. *)
Variables data_key metadata_key : string.

Definition _get_record_pieces (record : dict) : result (dict * value) :=
  data_section <- subscript (VDict record) data_key ;;
  items <- dict_items data_section ;;
  let data := dict_without MATHESAR_GROUP_METADATA items in
  let group_metadata := dict_get_default MATHESAR_GROUP_METADATA items (VDict []) in
  let existing := dict_get_default metadata_key record (VDict []) in
  group_items <- dict_items group_metadata ;;
  let group_id := dict_get_default group_id_key group_items VNone in
  metadata <- py_or existing (VDict (dict_of_pairs [(group_id_key, group_id)])) ;;
  Ok (dict_of_pairs [(data_key, VDict data); (metadata_key, metadata)],
      if truthy group_metadata then group_metadata else VNone).

(** [a, b = zip( *pairs)]: with no pair at all [zip] yields nothing and the
    unpacking into two names fails. *)
Definition unzip_pairs {A B : Type} (pairs : list (A * B)) : result (list A * list B) :=
  match pairs with
  | [] => Raise ValueError
  | _ :: _ => Ok (map fst pairs, map snd pairs)
  end.

Definition extract_group_metadata (record_dictionaries : list dict)
  : result (list dict * list value) :=
  pieces <- mapM _get_record_pieces record_dictionaries ;;
  tups <- unzip_pairs pieces ;;
  let record_tup := fst tups in
  let group_tup := snd tups in
  let blobs := set_list (map dumps group_tup) in
  groups <- mapM loads blobs ;;
  reduced_groups <- sorted groups group_id_of ;;
  Ok (record_tup, reduced_groups).

End Extract.

(* ================================================================== *)
(** * The vocabulary of the statements *)

Definition is_sequence (o : pyobj) : Prop :=
  exists items, o = PList items \/ o = PTuple items.

Definition recognised_mode (mode : string) : Prop :=
  mode = "distinct" \/ mode = "percentile".

Definition exactly_int (o : pyobj) : Prop := exists z, o = PInt z.

Definition string_or_Column (col : pyobj) : Prop :=
  (exists s, col = PStr s) \/ (exists c, col = PColumn c).




Definition example_table : Table :=
  mkTable "T" [("a", mkColumn "a" (Some "T")); ("b", mkColumn "b" (Some "T"))].

Definition unknown_error : exn := BadGroupFormat UnknownError.

(** The float [i / n], the bound of a bucket. *)
Definition bound (i n : Z) : Q := round_double (inject_Z i / inject_Z n).

Definition bucket (n i : Z) : sqlexpr * Z :=
  (and_ (CumeDistGt (bound i n)) (CumeDistLe (bound (i + 1) n)), i + 1).

(** The binade of a positive rational and the spacing of the doubles in it. *)
Definition exponent (x : Q) : Z := Z.max (floor_log2 x) (-1022).

Definition ulp (x : Q) : Q := pow2 (exponent x - 52).

(** No column of the table has one of the two names the percentile builder
    labels its own columns with. *)
Definition reserved_free (table : Table) : Prop :=
  Forall (fun col => name col <> CUME_DIST /\ name col <> RANGE_ID) (map snd (columns table)).

(** The branches of the case analysis a percentile query selects from. *)
Definition query_ranges (q : query) : option (list (sqlexpr * Z)) :=
  match query_from q with
  | FromCte _ _ (Case whens) _ => Some whens
  | _ => None
  end.



(** Induction on a value and on the values within it. *)
Section value_induction.

Variable P : value -> Prop.
Hypothesis HNone : P VNone.
Hypothesis HBool : forall b, P (VBool b).
Hypothesis HInt : forall z, P (VInt z).
Hypothesis HStr : forall s, P (VStr s).
Hypothesis HList : forall items, Forall P items -> P (VList items).
Hypothesis HDict : forall items, Forall (fun kv => P (snd kv)) items -> P (VDict items).

Fixpoint value_nested_ind (v : value) : P v :=
  match v with
  | VNone => HNone
  | VBool b => HBool b
  | VInt z => HInt z
  | VStr s => HStr s
  | VList items =>
      HList items
        ((fix all (l : list value) : Forall P l :=
            match l with
            | [] => Forall_nil P
            | x :: rest => Forall_cons x (value_nested_ind x) (all rest)
            end) items)
  | VDict items =>
      HDict items
        ((fix all (l : list (string * value)) : Forall (fun kv => P (snd kv)) l :=
            match l with
            | [] => Forall_nil _
            | (k, x) :: rest =>
                Forall_cons (P := fun kv => P (snd kv)) (k, x)
                  (value_nested_ind x) (all rest)
            end) items)
  end.

End value_induction.

(** Two keyed items whose keys are ints, the first not above the second. *)
Definition keys_ascend {A : Type} (a b : value * A) : Prop :=
  exists x y, fst a = VInt x /\ fst b = VInt y /\ x <= y.

Definition int_keyed {A : Type} (a : value * A) : Prop := exists x, fst a = VInt x.

(** Two items whose keys are ints, the first not above the second. *)
Definition ascend_by {A : Type} (key : A -> result value) (a b : A) : Prop :=
  exists x y, key a = Ok (VInt x) /\ key b = Ok (VInt y) /\ x <= y.

(** What may follow a value inside a document: nothing, or one of [,] [\]] [}]. *)
Definition delimiter_follows (s : chars) : bool :=
  match s with
  | [] => true
  | c :: _ => Ascii.eqb c ","%char || Ascii.eqb c "]"%char || Ascii.eqb c "}"%char
  end.

Definition digits_of (d : Decimal.uint) : chars := chars_of (NilEmpty.string_of_uint d).

(** The characters a number starts with, and those any value starts with. *)
Definition number_start (c : ascii) : bool := is_digit c || Ascii.eqb c "-"%char.

Definition value_start (c : ascii) : bool :=
  number_start c
  || Ascii.eqb c "n"%char || Ascii.eqb c "t"%char || Ascii.eqb c "f"%char
  || Ascii.eqb c quote || Ascii.eqb c "["%char || Ascii.eqb c "{"%char.

Definition separator : chars := chars_of ", ".

Definition encode_member (kv : string * value) : chars :=
  encode_string (fst kv) ++ chars_of ": " ++ encode (snd kv).

(** Decoding what [encode] wrote gives the value back, whatever follows it,
    as soon as the fuel exceeds the length of the text. *)
Definition decodes (v : value) : Prop :=
  forall fuel rest,
    well_formed v = true -> delimiter_follows rest = true ->
    (List.length (encode v) < fuel)%nat ->
    decode_value fuel (encode v ++ rest) = Some (v, rest).

(** The raw group metadata of a record: what its data section holds under
    the reserved key, the empty object when it holds nothing. *)
Definition raw_group_metadata (data_key : string) (record : dict) : value :=
  match dict_get data_key record with
  | Some (VDict data) => dict_get_default MATHESAR_GROUP_METADATA data (VDict [])
  | _ => VDict []
  end.

(** A record as the grouping query produces it: a data section carrying a
    non-empty group metadata object with an integer [group_id], and a
    metadata section that is a dict when there is one. *)
Definition has_group_metadata (data_key metadata_key : string) (record : dict) : bool :=
  match raw_group_metadata data_key record with
  | VDict raw =>
      truthy (VDict raw) && well_formed (VDict raw)
      && match dict_get group_id_key raw with
         | Some (VInt _) => true
         | _ => false
         end
  | _ => false
  end
  && match dict_get_default metadata_key record (VDict []) with
     | VDict _ => true
     | _ => false
     end.

(** One order for the examples. *)
#[export] Instance last_seen_order : SetOrder :=
  {| set_list := last_seen;
     set_list_NoDup := NoDup_nodup string_dec;
     set_list_In := fun xs x => nodup_In string_dec xs x |}.

(** A row whose data section has no group metadata. *)
Definition ungrouped_record : dict := [("data", VDict [("a", VInt 1)])].

(** [out] is the row made of [record]: the data section without the reserved
    field, and the metadata section with [group_id] set to the raw group
    metadata's [group_id] ([None] when there is none) and its other keys as
    they were. *)
Definition row_of (data_key metadata_key : string) (record out : dict) : Prop :=
  exists data raw existing,
    dict_get data_key record = Some (VDict data)
    /\ dict_get_default MATHESAR_GROUP_METADATA data (VDict []) = VDict raw
    /\ dict_get_default metadata_key record (VDict []) = VDict existing
    /\ let group_id := dict_get_default group_id_key raw VNone in
       let data' := dict_without MATHESAR_GROUP_METADATA data in
       let metadata' := dict_or existing [(group_id_key, group_id)] in
       out = [(data_key, VDict data'); (metadata_key, VDict metadata')]
       /\ dict_get MATHESAR_GROUP_METADATA data' = None
       /\ (forall k, k <> MATHESAR_GROUP_METADATA -> dict_get k data' = dict_get k data)
       /\ dict_get group_id_key metadata' = Some group_id
       /\ (forall k, k <> group_id_key -> dict_get k metadata' = dict_get k existing).

Definition group_1 : value :=
  VDict [("group_id", VInt 1); ("count", VInt 2);
         ("first_value", VDict [("a", VInt 1); ("b", VStr "x")]);
         ("last_value", VDict [("a", VInt 1); ("b", VStr "x")])].

Definition group_2 : value :=
  VDict [("group_id", VInt 2); ("count", VInt 1);
         ("first_value", VDict [("a", VInt 2); ("b", VStr "y")]);
         ("last_value", VDict [("a", VInt 2); ("b", VStr "y")])].

(** [group_1] with its keys in another order. *)
Definition group_1_reordered : value :=
  VDict [("count", VInt 2); ("group_id", VInt 1);
         ("first_value", VDict [("a", VInt 1); ("b", VStr "x")]);
         ("last_value", VDict [("a", VInt 1); ("b", VStr "x")])].

Definition grouped_record (a : Z) (b : string) (group : value) : dict :=
  [("data", VDict [("a", VInt a); ("b", VStr b); (MATHESAR_GROUP_METADATA, group)]);
   ("metadata", VDict [("seen", VBool true); ("group_id", VInt 7)])].

Definition clean_record (a : Z) (b : string) (group_id : value) : dict :=
  [("data", VDict [("a", VInt a); ("b", VStr b)]);
   ("metadata", VDict [("seen", VBool true); ("group_id", group_id)])].

(** The spec's example table T(a, b) with rows (1,'x'), (1,'x'), (2,'y'),
    listed with the second group first. *)
Definition example_records : list dict :=
  [grouped_record 2 "y" group_2; grouped_record 1 "x" group_1; grouped_record 1 "x" group_1].

(** A row with [group_id] reset to [None]. *)
Definition reset_row (data_key metadata_key : string) (data metadata : dict) : dict :=
  [(data_key, VDict data); (metadata_key, VDict (dict_set group_id_key VNone metadata))].

(** The [group_id] in the metadata section of a row. *)
Definition row_group_id (metadata_key : string) (row : dict) : option value :=
  match dict_get metadata_key row with
  | Some (VDict metadata) => dict_get group_id_key metadata
  | _ => None
  end.

(** Two items whose keys are ints, the first below the second. *)
Definition ascend_strictly_by {A : Type} (key : A -> result value) (a b : A) : Prop :=
  exists x y, key a = Ok (VInt x) /\ key b = Ok (VInt y) /\ x < y.

(** The records at hand that have the same [group_id] carry the same group
    metadata object. *)
Definition group_id_determines (data_key : string) (records : list dict) : Prop :=
  forall r r',
    In r records -> In r' records ->
    group_id_of (raw_group_metadata data_key r)
    = group_id_of (raw_group_metadata data_key r') ->
    raw_group_metadata data_key r = raw_group_metadata data_key r'.

Definition is_dict (v : value) : Prop := exists items, v = VDict items.

(** Another order a set may have: [last_seen] backwards. *)
Definition reversed_order : SetOrder :=
  {| set_list := fun xs => rev (last_seen xs);
     set_list_NoDup := fun xs => NoDup_rev (NoDup_nodup string_dec xs);
     set_list_In := fun xs x =>
       iff_trans (iff_sym (in_rev (last_seen xs) x)) (nodup_In string_dec xs x) |}.

(* ================================================================== *)
(** * Properties *)

(** ** The monad and the loops *)

Lemma bind_Ok_inv {A B : Type} (m : result A) (k : A -> result B) (b : B) :
  bind m k = Ok b -> exists a, m = Ok a /\ k a = Ok b.
Proof.
  destruct m as [a | e]; simpl; intros E.
  - exists a. split; [reflexivity | exact E].
  - discriminate E.
Qed.

Lemma mapM_Ok_map {A B : Type} (f : A -> result B) (g : A -> B) (l : list A) :
  (forall x, In x l -> f x = Ok (g x)) -> mapM f l = Ok (map g l).
Proof.
  induction l as [| x rest IH]; intros Hf; simpl.
  - reflexivity.
  - rewrite (Hf x (or_introl eq_refl)). simpl.
    rewrite IH by (intros y Hy; apply Hf; right; exact Hy).
    reflexivity.
Qed.

Lemma mapM_Ok_Forall2 {A B : Type} (f : A -> result B) (l : list A) (l' : list B) :
  mapM f l = Ok l' -> Forall2 (fun x y => f x = Ok y) l l'.
Proof.
  revert l'. induction l as [| x rest IH]; simpl; intros l' E.
  - injection E as <-. constructor.
  - apply bind_Ok_inv in E. destruct E as (y & Ey & E).
    apply bind_Ok_inv in E. destruct E as (ys & Eys & E).
    injection E as <-. constructor; [exact Ey | apply IH; exact Eys].
Qed.

(** ** Validation *)

Lemma sequence_items_None (o : pyobj) :
  sequence_items o = None <-> ~ is_sequence o.
Proof.
  unfold is_sequence. split.
  - intros E (items & [-> | ->]); discriminate E.
  - intros H. destruct o; try reflexivity; exfalso; apply H; eauto.
Qed.

Lemma sequence_items_Some (o : pyobj) (items : list pyobj) :
  sequence_items o = Some items <-> (o = PList items \/ o = PTuple items).
Proof.
  split.
  - destruct o; simpl; intros E; try discriminate E; injection E as ->; auto.
  - intros [-> | ->]; reflexivity.
Qed.

Lemma is_group_mode_true (mode : string) :
  is_group_mode mode = true <-> recognised_mode mode.
Proof.
  unfold is_group_mode, recognised_mode. simpl.
  rewrite orb_false_r, orb_true_iff, !String.eqb_eq. tauto.
Qed.

Lemma type_is_int_true (o : pyobj) : type_is_int o = true <-> exactly_int o.
Proof.
  unfold exactly_int. split.
  - destruct o; simpl; intros E; try discriminate E. eauto.
  - intros (z & ->). reflexivity.
Qed.

Lemma type_is_str_or_Column_true (col : pyobj) :
  type_is_str_or_Column col = true <-> string_or_Column col.
Proof.
  unfold string_or_Column. split.
  - destruct col; simpl; intros E; try discriminate E; eauto.
  - intros [(s & ->) | (c & ->)]; reflexivity.
Qed.

Lemma validate_columns_Ok (cols : list pyobj) :
  Forall string_or_Column cols -> validate_columns cols = Ok tt.
Proof.
  induction 1 as [| col rest Hcol _ IH]; simpl.
  - reflexivity.
  - apply type_is_str_or_Column_true in Hcol. rewrite Hcol. exact IH.
Qed.

Lemma validate_columns_first_bad (before after : list pyobj) (col : pyobj) :
  Forall string_or_Column before -> ~ string_or_Column col ->
  validate_columns (before ++ col :: after) = Raise (BadGroupFormat (ColumnBadType col)).
Proof.
  intros Hbefore Hcol. induction Hbefore as [| c rest Hc _ IH]; simpl.
  - destruct (type_is_str_or_Column col) eqn:E; [| reflexivity].
    apply type_is_str_or_Column_true in E. contradiction.
  - apply type_is_str_or_Column_true in Hc. rewrite Hc. exact IH.
Qed.

Lemma validate_columns_inv (cols : list pyobj) :
  validate_columns cols = Ok tt -> Forall string_or_Column cols.
Proof.
  induction cols as [| col rest IH]; simpl; intros E.
  - constructor.
  - destruct (type_is_str_or_Column col) eqn:Ecol; [| discriminate E].
    constructor; [apply type_is_str_or_Column_true; exact Ecol | apply IH; exact E].
Qed.

(** What a successful validation establishes. *)
Lemma validate_Ok_inv (self : GroupBy) :
  validate self = Ok tt ->
  exists cols,
    sequence_items (column_list self) = Some cols
    /\ recognised_mode (group_mode self)
    /\ (group_mode self = "percentile" -> exactly_int (num_groups self))
    /\ Forall string_or_Column cols.
Proof.
  unfold validate. intros E.
  destruct (sequence_items (column_list self)) as [cols |]; [| discriminate E].
  destruct (is_group_mode (group_mode self)) eqn:Emode; cbn [negb] in E;
    [| discriminate E].
  exists cols. split; [reflexivity |].
  split; [apply is_group_mode_true; exact Emode |].
  destruct (String.eqb (group_mode self) (GroupMode_value PERCENTILE)) eqn:Ep;
    cbn [andb] in E.
  - destruct (type_is_int (num_groups self)) eqn:Eint; cbn [negb] in E;
      [| discriminate E].
    split; [intros _; apply type_is_int_true; exact Eint |].
    apply validate_columns_inv; exact E.
  - split; [| apply validate_columns_inv; exact E].
    intros Hp. apply String.eqb_neq in Ep. contradiction.
Qed.

(** When each of the four checks passes, in the order they are made. *)
Lemma validate_checks (self : GroupBy) (items : list pyobj) :
  column_list self = PList items \/ column_list self = PTuple items ->
  recognised_mode (group_mode self) ->
  (group_mode self = "percentile" -> exactly_int (num_groups self)) ->
  validate self = validate_columns items.
Proof.
  intros Hseq Hmode Hint. unfold validate.
  apply sequence_items_Some in Hseq. rewrite Hseq.
  apply is_group_mode_true in Hmode. rewrite Hmode. cbn [negb].
  destruct (String.eqb (group_mode self) (GroupMode_value PERCENTILE)) eqn:Ep;
    [| reflexivity].
  apply String.eqb_eq in Ep. apply Hint, type_is_int_true in Ep.
  rewrite Ep. reflexivity.
Qed.

(** C5: [validate] raises [BadGroupFormat] when [column_list] is neither a
    list nor a tuple; otherwise [InvalidGroupType] when [group_mode] is not
    one of the two modes; otherwise [BadGroupFormat] when the mode is
    percentile and [num_groups] is not of type int exactly (the floats 3.5
    and 3.0 both fail, and so does a bool); otherwise [BadGroupFormat] at the
    first element of [column_list] that is neither a string nor a Column;
    and it succeeds when no such element exists. *)
Theorem validate_raises (self : GroupBy) :
  (~ is_sequence (column_list self) ->
   validate self = Raise (BadGroupFormat ColumnListNotSequence))
  /\ (is_sequence (column_list self) -> ~ recognised_mode (group_mode self) ->
      validate self = Raise (InvalidGroupType (group_mode self)))
  /\ (is_sequence (column_list self) -> group_mode self = "percentile" ->
      ~ exactly_int (num_groups self) ->
      validate self = Raise (BadGroupFormat NumGroupsNotInteger))
  /\ (forall items,
        column_list self = PList items \/ column_list self = PTuple items ->
        recognised_mode (group_mode self) ->
        (group_mode self = "percentile" -> exactly_int (num_groups self)) ->
        (forall before col after,
            items = before ++ col :: after ->
            Forall string_or_Column before -> ~ string_or_Column col ->
            validate self = Raise (BadGroupFormat (ColumnBadType col)))
        /\ (Forall string_or_Column items -> validate self = Ok tt))
  /\ validate (mkGroupBy (PList [PStr "a"]) "percentile" (PFloat (7 # 2)))
     = Raise (BadGroupFormat NumGroupsNotInteger)
  /\ validate (mkGroupBy (PList [PStr "a"]) "percentile" (PFloat (3 # 1)))
     = Raise (BadGroupFormat NumGroupsNotInteger)
  /\ validate (mkGroupBy (PList [PStr "a"]) "percentile" (PBool true))
     = Raise (BadGroupFormat NumGroupsNotInteger).
Proof.
  unfold validate.
  split; [| split; [| split; [| split; [| repeat split]]]].
  - intros H. apply sequence_items_None in H. rewrite H. reflexivity.
  - intros (items & Hseq) Hmode. apply sequence_items_Some in Hseq. rewrite Hseq.
    destruct (is_group_mode (group_mode self)) eqn:E; [| reflexivity].
    apply is_group_mode_true in E. contradiction.
  - intros (items & Hseq) Hmode Hint. apply sequence_items_Some in Hseq.
    rewrite Hseq, Hmode. simpl.
    destruct (type_is_int (num_groups self)) eqn:E; [| reflexivity].
    apply type_is_int_true in E. contradiction.
  - intros items Hseq Hmode Hint.
    fold (validate self). rewrite (validate_checks self items Hseq Hmode Hint). split.
    + intros before col after -> Hbefore Hcol.
      apply validate_columns_first_bad; assumption.
    + apply validate_columns_Ok.
Qed.

Lemma validate_raises_witness :
  validate (mkGroupBy (PTuple [PStr "a"; PColumn (mkColumn "b" None)]) "percentile" (PInt 3))
  = Ok tt
  /\ validate (mkGroupBy (PStr "a") "distinct" (PInt 12))
     = Raise (BadGroupFormat ColumnListNotSequence)
  /\ validate (mkGroupBy (PList [PStr "a"; PInt 1; PNone]) "distinct" (PInt 12))
     = Raise (BadGroupFormat (ColumnBadType (PInt 1))).
Proof.
  split; [| split].
  - refine (proj2 (proj1 (proj2 (proj2 (proj2 (validate_raises _)))) _ _ _ _) _).
    + right; reflexivity.
    + right; reflexivity.
    + intros _; exists 3; reflexivity.
    + apply Forall_cons; [left; eexists; reflexivity |].
      apply Forall_cons; [right; eexists; reflexivity | apply Forall_nil].
  - refine (proj1 (validate_raises _) _).
    intros (items & [H | H]); discriminate H.
  - refine (proj1 (proj1 (proj2 (proj2 (proj2 (validate_raises _)))) _ _ _ _)
              [PStr "a"] (PInt 1) [PNone] _ _ _).
    + left; reflexivity.
    + left; reflexivity.
    + intros H; discriminate H.
    + reflexivity.
    + apply Forall_cons; [left; eexists; reflexivity | apply Forall_nil].
    + intros [(s & H) | (c & H)]; discriminate H.
Defined.

(** ** Column resolution *)






(** ** No unknown error from resolution *)

Lemma get_validated_Ok_validate (self : GroupBy) (table : Table) (cols : list Column) :
  get_validated_group_by_columns self table = Ok cols -> validate self = Ok tt.
Proof.
  unfold get_validated_group_by_columns. intros E.
  apply bind_Ok_inv in E. destruct E as ([] & E & _). exact E.
Qed.

Lemma bind_never_raises {A B : Type} (m : result A) (k : A -> result B) (e : exn) :
  m <> Raise e -> (forall a, k a <> Raise e) -> bind m k <> Raise e.
Proof.
  intros Hm Hk. destruct m as [a | e']; simpl.
  - apply Hk.
  - intros E. apply Hm. injection E as ->. reflexivity.
Qed.

Lemma validate_never_unknown (self : GroupBy) : validate self <> Raise unknown_error.
Proof.
  unfold validate, unknown_error.
  destruct (sequence_items (column_list self)) as [items |]; [| discriminate].
  destruct (negb (is_group_mode (group_mode self))); [discriminate |].
  destruct (_ && _); [discriminate |].
  induction items as [| col rest IH]; simpl; [discriminate |].
  destruct (type_is_str_or_Column col); [exact IH | discriminate].
Qed.

Lemma check_columns_found_never_unknown (table : Table) (cols : list pyobj) :
  check_columns_found table cols <> Raise unknown_error.
Proof.
  unfold unknown_error. induction cols as [| col rest IH]; simpl; [discriminate |].
  destruct (column_reference_name col) as [nm | e] eqn:Hnm; simpl.
  - destruct (negb (columns_contains nm (columns table))); [discriminate | exact IH].
  - destruct col; simpl in Hnm; try discriminate Hnm; injection Hnm as <-; discriminate.
Qed.

Lemma create_col_objects_never_unknown (table : Table) (cols : list pyobj) :
  create_col_objects table cols <> Raise unknown_error.
Proof.
  unfold create_col_objects, unknown_error.
  induction cols as [| col rest IH]; simpl; [discriminate |].
  apply bind_never_raises.
  - destruct (column_reference_name col) as [nm | e] eqn:Hnm; simpl.
    + destruct (columns_get nm (columns table)); discriminate.
    + destruct col; simpl in Hnm; try discriminate Hnm; injection Hnm as <-; discriminate.
  - intros handle. apply bind_never_raises; [exact IH | discriminate].
Qed.

Lemma get_validated_never_unknown (self : GroupBy) (table : Table) :
  get_validated_group_by_columns self table <> Raise unknown_error.
Proof.
  unfold get_validated_group_by_columns.
  apply bind_never_raises; [apply validate_never_unknown | intros _].
  apply bind_never_raises.
  - unfold iterate, unknown_error.
    destruct (sequence_items (column_list self)); discriminate.
  - intros items. apply bind_never_raises.
    + apply check_columns_found_never_unknown.
    + intros _. apply create_col_objects_never_unknown.
Qed.

(** ** Floats *)

Lemma pow2_pos (e : Z) : (0 < pow2 e)%Q.
Proof. apply Qpower_0_lt. reflexivity. Qed.

Lemma pow2_add (a b : Z) : (pow2 (a + b) == pow2 a * pow2 b)%Q.
Proof. apply Qpower_plus. discriminate. Qed.

Lemma pow2_le (a b : Z) : a <= b -> (pow2 a <= pow2 b)%Q.
Proof. intros H. apply Qpower_le_compat_l; [exact H | discriminate]. Qed.

Lemma pow2_lt_inv (a b : Z) : (pow2 a < pow2 b)%Q -> a < b.
Proof. intros H. apply (Qpower_lt_compat_l_inv 2); [exact H | reflexivity]. Qed.

Lemma pow2_inject (n : Z) : 0 <= n -> (inject_Z (2 ^ n) == pow2 n)%Q.
Proof. intros H. apply (Zpower_Qpower 2 n H). Qed.

(** *** The binade of a positive rational *)

Lemma floor_log2_spec (x : Q) :
  (0 < x)%Q -> (pow2 (floor_log2 x) <= x)%Q /\ (x < pow2 (floor_log2 x + 1))%Q.
Proof.
  intros Hx. destruct x as [a b].
  assert (Ha : 0 < a) by (unfold Qlt in Hx; simpl in Hx; lia).
  unfold floor_log2. cbn [Qnum Qden].
  set (p := Z.log2 a). set (q := Z.log2 (Z.pos b)).
  assert (Hp : 2 ^ p <= a < 2 ^ (p + 1)).
  { pose proof (Z.log2_spec a Ha) as H. unfold Z.succ in H. exact H. }
  assert (Hq : 2 ^ q <= Z.pos b < 2 ^ (q + 1)).
  { pose proof (Z.log2_spec (Z.pos b) eq_refl) as H. unfold Z.succ in H. exact H. }
  assert (Hp0 : 0 <= p) by apply Z.log2_nonneg.
  assert (Hq0 : 0 <= q) by apply Z.log2_nonneg.
  assert (Hb : (0 < inject_Z (Z.pos b))%Q) by reflexivity.
  assert (Hxb : ((a # b) * inject_Z (Z.pos b) == inject_Z a)%Q).
  { unfold Qeq, Qmult, inject_Z. simpl. lia. }
  destruct (Qle_bool (pow2 (p - q)) (a # b)) eqn:E.
  - apply Qle_bool_iff in E. split; [exact E |].
    apply (Qmult_lt_r _ _ _ Hb). rewrite Hxb.
    apply Qlt_le_trans with (inject_Z (2 ^ (p + 1))).
    + rewrite <- Zlt_Qlt. lia.
    + rewrite pow2_inject by lia.
      replace (p + 1) with ((p - q + 1) + q) by lia. rewrite pow2_add.
      apply Qmult_le_l; [apply pow2_pos |].
      rewrite <- pow2_inject by lia. rewrite <- Zle_Qle. lia.
  - assert (E' : (a # b < pow2 (p - q))%Q).
    { apply Qnot_le_lt. intros H. apply Qle_bool_iff in H. rewrite H in E. discriminate E. }
    split.
    + apply (Qmult_le_r _ _ _ Hb). rewrite Hxb.
      apply Qle_trans with (inject_Z (2 ^ p)).
      * rewrite pow2_inject by lia.
        replace p with ((p - q - 1) + (q + 1)) at 2 by lia. rewrite pow2_add.
        apply Qmult_le_l; [apply pow2_pos |].
        rewrite <- pow2_inject by lia. rewrite <- Zle_Qle. lia.
      * rewrite <- Zle_Qle. lia.
    + replace (p - q - 1 + 1) with (p - q) by lia. exact E'.
Qed.

Lemma floor_log2_mono (x y : Q) :
  (0 < x)%Q -> (x <= y)%Q -> floor_log2 x <= floor_log2 y.
Proof.
  intros Hx Hxy.
  destruct (floor_log2_spec x Hx) as [Hlo _].
  destruct (floor_log2_spec y (Qlt_le_trans _ _ _ Hx Hxy)) as [_ Hhi].
  pose proof (pow2_lt_inv _ _ (Qle_lt_trans _ _ _ (Qle_trans _ _ _ Hlo Hxy) Hhi)).
  lia.
Qed.


(** *** Rounding to an integer, ties to even *)

Lemma round_half_even_floor (m : Q) :
  Qfloor m <= round_half_even m <= Qfloor m + 1.
Proof.
  unfold round_half_even. destruct (_ ?= _)%Q; [destruct (Z.even _) | |]; lia.
Qed.

Lemma round_half_even_ge (m : Q) (k : Z) :
  (inject_Z k <= m)%Q -> k <= round_half_even m.
Proof.
  intros H. apply Qfloor_resp_le in H. rewrite Qfloor_Z in H.
  pose proof (round_half_even_floor m). lia.
Qed.



Lemma round_half_even_le (m : Q) (k : Z) :
  (m <= inject_Z k)%Q -> round_half_even m <= k.
Proof.
  intros H. pose proof (Qfloor_resp_le _ _ H) as Hf. rewrite Qfloor_Z in Hf.
  pose proof (round_half_even_floor m) as Hr.
  destruct (Z.eq_dec (Qfloor m) k) as [E | E]; [| lia].
  assert (Hm : (m - inject_Z (Qfloor m) <= 0)%Q).
  { rewrite E. apply Qplus_le_l with (z := inject_Z k). ring_simplify. exact H. }
  unfold round_half_even.
  destruct (Qcompare_spec (m - inject_Z (Qfloor m)) (1 # 2)) as [H1 | H1 | H1].
  - rewrite H1 in Hm. exfalso. apply (Qle_not_lt _ _ Hm). reflexivity.
  - lia.
  - exfalso. apply (Qle_not_lt _ _ Hm). apply Qlt_trans with (1 # 2); [reflexivity | exact H1].
Qed.

Lemma round_half_even_mono (m m' : Q) :
  (m <= m')%Q -> round_half_even m <= round_half_even m'.
Proof.
  intros H. pose proof (Qfloor_resp_le _ _ H) as Hf.
  pose proof (round_half_even_floor m) as Hr. pose proof (round_half_even_floor m') as Hr'.
  destruct (Z.eq_dec (Qfloor m) (Qfloor m')) as [E | E]; [| lia].
  assert (Hfrac : (m - inject_Z (Qfloor m) <= m' - inject_Z (Qfloor m'))%Q).
  { rewrite E. apply Qplus_le_l with (z := inject_Z (Qfloor m')). ring_simplify. exact H. }
  unfold round_half_even. rewrite <- E in *.
  destruct (Qcompare_spec (m - inject_Z (Qfloor m)) (1 # 2)) as [H1 | H1 | H1];
    destruct (Qcompare_spec (m' - inject_Z (Qfloor m)) (1 # 2)) as [H2 | H2 | H2];
    try (destruct (Z.even (Qfloor m)); lia); try lia; exfalso.
  - rewrite H1 in Hfrac. exact (Qle_not_lt _ _ Hfrac H2).
  - rewrite H2 in Hfrac. exact (Qle_not_lt _ _ Hfrac H1).
  - exact (Qle_not_lt _ _ Hfrac (Qlt_trans _ _ _ H2 H1)).
Qed.


(** *** Rounding a positive rational *)

Lemma round_positive_unfold (x : Q) :
  round_positive x = (inject_Z (round_half_even (x / ulp x)) * ulp x)%Q.
Proof. reflexivity. Qed.

Lemma ulp_pos (x : Q) : (0 < ulp x)%Q.
Proof. apply pow2_pos. Qed.

Lemma scaled_le (x u : Q) (k : Z) :
  (0 < u)%Q -> (x <= inject_Z k * u)%Q -> round_half_even (x / u) <= k.
Proof.
  intros Hu H. apply round_half_even_le. apply Qle_shift_div_r; assumption.
Qed.

Lemma scaled_ge (x u : Q) (k : Z) :
  (0 < u)%Q -> (inject_Z k * u <= x)%Q -> k <= round_half_even (x / u).
Proof.
  intros Hu H. apply round_half_even_ge. apply Qle_shift_div_l; assumption.
Qed.

Lemma round_positive_nonneg (x : Q) : (0 < x)%Q -> (0 <= round_positive x)%Q.
Proof.
  intros Hx. rewrite round_positive_unfold.
  apply Qmult_le_0_compat; [| apply Qlt_le_weak, ulp_pos].
  change 0%Q with (inject_Z 0). rewrite <- Zle_Qle.
  apply scaled_ge; [apply ulp_pos |]. rewrite Qmult_0_l. apply Qlt_le_weak. exact Hx.
Qed.

(** Below the next power of two, and not below the last one. *)
Lemma round_positive_le_binade (x : Q) :
  (0 < x)%Q -> (round_positive x <= pow2 (exponent x + 1))%Q.
Proof.
  intros Hx. rewrite round_positive_unfold.
  assert (Hsplit : (pow2 (exponent x + 1) == inject_Z (2 ^ 53) * ulp x)%Q).
  { unfold ulp. rewrite (pow2_inject 53) by lia. rewrite <- pow2_add.
    replace (53 + (exponent x - 52)) with (exponent x + 1) by lia. reflexivity. }
  rewrite Hsplit. apply Qmult_le_compat_r; [| apply Qlt_le_weak, ulp_pos].
  rewrite <- Zle_Qle. apply scaled_le; [apply ulp_pos |]. rewrite <- Hsplit.
  destruct (floor_log2_spec x Hx) as [_ Hhi].
  apply Qlt_le_weak. apply Qlt_le_trans with (1 := Hhi).
  apply pow2_le. unfold exponent. lia.
Qed.

Lemma round_positive_ge_binade (x : Q) :
  (0 < x)%Q -> -1022 <= floor_log2 x -> (pow2 (exponent x) <= round_positive x)%Q.
Proof.
  intros Hx He. rewrite round_positive_unfold.
  assert (Hsplit : (pow2 (exponent x) == inject_Z (2 ^ 52) * ulp x)%Q).
  { unfold ulp. rewrite (pow2_inject 52) by lia. rewrite <- pow2_add.
    replace (52 + (exponent x - 52)) with (exponent x) by lia. reflexivity. }
  rewrite Hsplit. apply Qmult_le_compat_r; [| apply Qlt_le_weak, ulp_pos].
  rewrite <- Zle_Qle. apply scaled_ge; [apply ulp_pos |]. rewrite <- Hsplit.
  destruct (floor_log2_spec x Hx) as [Hlo _].
  unfold exponent. rewrite Z.max_l by lia. exact Hlo.
Qed.

Lemma round_positive_mono (x y : Q) :
  (0 < x)%Q -> (x <= y)%Q -> (round_positive x <= round_positive y)%Q.
Proof.
  intros Hx Hxy. pose proof (Qlt_le_trans _ _ _ Hx Hxy) as Hy.
  pose proof (floor_log2_mono x y Hx Hxy) as He.
  destruct (Z.eq_dec (exponent x) (exponent y)) as [E | E].
  - rewrite !round_positive_unfold. unfold ulp. rewrite E.
    apply Qmult_le_compat_r; [| apply Qlt_le_weak, pow2_pos].
    rewrite <- Zle_Qle. apply round_half_even_mono.
    apply Qmult_le_compat_r; [exact Hxy |].
    apply Qinv_le_0_compat, Qlt_le_weak, pow2_pos.
  - assert (Hlt : exponent x < exponent y) by (unfold exponent in *; lia).
    apply Qle_trans with (pow2 (exponent x + 1)); [apply round_positive_le_binade; exact Hx |].
    apply Qle_trans with (pow2 (exponent y)); [apply pow2_le; lia |].
    apply round_positive_ge_binade; [exact Hy |]. unfold exponent in *. lia.
Qed.


(** *** Rounding a quotient *)

Lemma round_double_zero (x : Q) : (x == 0)%Q -> (round_double x == 0)%Q.
Proof.
  intros H. unfold round_double. rewrite Qred_correct.
  destruct x as [[| p | p] d]; [reflexivity | discriminate H | discriminate H].
Qed.

Lemma round_double_positive (x : Q) : (0 < x)%Q -> (round_double x == round_positive x)%Q.
Proof.
  intros H. unfold round_double. rewrite Qred_correct.
  destruct x as [[| p | p] d]; [discriminate H | reflexivity | discriminate H].
Qed.

Lemma round_double_mono (x y : Q) :
  (0 <= x)%Q -> (x <= y)%Q -> (round_double x <= round_double y)%Q.
Proof.
  intros Hx Hxy. apply Qle_lteq in Hx. destruct Hx as [Hx | Hx].
  - rewrite (round_double_positive x Hx).
    rewrite (round_double_positive y (Qlt_le_trans _ _ _ Hx Hxy)).
    apply round_positive_mono; assumption.
  - rewrite (round_double_zero x) by (symmetry; exact Hx).
    rewrite <- Hx in Hxy. apply Qle_lteq in Hxy. destruct Hxy as [Hy | Hy].
    + rewrite (round_double_positive y Hy). apply round_positive_nonneg. exact Hy.
    + rewrite (round_double_zero y) by (symmetry; exact Hy). apply Qle_refl.
Qed.

Lemma round_double_at_one : round_double 1 = 1%Q.
Proof. vm_compute. reflexivity. Qed.

Lemma round_double_one (x : Q) : (x == 1)%Q -> (round_double x == 1)%Q.
Proof.
  intros H. rewrite <- round_double_at_one. apply Qle_antisym.
  - apply round_double_mono; rewrite H; [discriminate | apply Qle_refl].
  - apply round_double_mono; [discriminate | rewrite H; apply Qle_refl].
Qed.


(** The doubles of 1/3 and of 1/10. *)
Example round_double_third :
  round_double (1 # 3) = (6004799503160661 # 18014398509481984)%Q.
Proof. vm_compute. reflexivity. Qed.

Example py_truediv_tenth :
  py_truediv 1 10 = Ok (3602879701896397 # 36028797018963968)%Q.
Proof. vm_compute. reflexivity. Qed.

(** ** Percentile buckets *)

Lemma py_range_length (n : Z) : 0 <= n -> Z.of_nat (List.length (py_range n)) = n.
Proof.
  intros Hn. unfold py_range. rewrite length_map, length_seq. apply Z2Nat.id; exact Hn.
Qed.


Lemma py_range_nonpositive (n : Z) : n <= 0 -> py_range n = [].
Proof.
  intros Hn. unfold py_range. replace (Z.to_nat n) with 0%nat by lia. reflexivity.
Qed.

Lemma py_range_In (n i : Z) : In i (py_range n) <-> 0 <= i < n.
Proof.
  unfold py_range. rewrite in_map_iff. split.
  - intros (k & <- & Hk). apply in_seq in Hk. lia.
  - intros Hi. exists (Z.to_nat i). split; [lia |]. apply in_seq. lia.
Qed.

(** *** The bounds *)

Lemma fraction_le (n a b : Z) :
  0 < n -> a <= b -> (inject_Z a / inject_Z n <= inject_Z b / inject_Z n)%Q.
Proof.
  intros Hn Hab. destruct n as [| p | p]; try lia.
  unfold Qle, Qdiv, Qmult, Qinv. simpl. nia.
Qed.

Lemma fraction_zero (n : Z) : (inject_Z 0 / inject_Z n == 0)%Q.
Proof. unfold Qdiv. apply Qmult_0_l. Qed.

Lemma fraction_one (n : Z) : 0 < n -> (inject_Z n / inject_Z n == 1)%Q.
Proof.
  intros Hn. unfold Qdiv. apply Qmult_inv_r. destruct n; try lia. discriminate.
Qed.



Lemma bound_zero (n : Z) : (bound 0 n == 0)%Q.
Proof. apply round_double_zero, fraction_zero. Qed.

Lemma bound_one (n : Z) : 0 < n -> (bound n n == 1)%Q.
Proof. intros Hn. apply round_double_one, fraction_one. exact Hn. Qed.

Lemma bound_mono (n a b : Z) :
  0 < n -> 0 <= a -> a <= b -> (bound a n <= bound b n)%Q.
Proof.
  intros Hn Ha Hab. apply round_double_mono.
  - rewrite <- (fraction_zero n). apply fraction_le; lia.
  - apply fraction_le; lia.
Qed.

Lemma bound_lt_inv (n a b : Z) :
  0 < n -> 0 <= b -> (bound a n < bound b n)%Q -> a < b.
Proof.
  intros Hn Hb Hlt. destruct (Z.lt_ge_cases a b) as [H | H]; [exact H |].
  exfalso. exact (Qlt_not_le _ _ Hlt (bound_mono n b a Hn Hb H)).
Qed.

Lemma bound_unit (n i : Z) :
  0 < n -> 0 <= i <= n -> (0 <= bound i n)%Q /\ (bound i n <= 1)%Q.
Proof.
  intros Hn Hi. split.
  - rewrite <- (bound_zero n). apply bound_mono; lia.
  - rewrite <- (bound_one n Hn). apply bound_mono; lia.
Qed.



(** In the comprehension the division neither divides by zero nor
    overflows. *)
Lemma py_truediv_bound (n i : Z) :
  0 < n -> 0 <= i <= n -> py_truediv i n = Ok (bound i n).
Proof.
  intros Hn Hi. unfold py_truediv.
  replace (n =? 0) with false by (symmetry; apply Z.eqb_neq; lia).
  fold (bound i n). destruct (bound_unit n i Hn Hi) as [H0 H1].
  destruct (Qle_bool (pow2 1024) (Qabs (bound i n))) eqn:E; [| reflexivity].
  exfalso. apply Qle_bool_iff in E. rewrite (Qabs_pos _ H0) in E.
  apply (Qle_not_lt _ _ (Qle_trans _ _ _ E H1)).
  change 1%Q with (pow2 0). apply Qpower_lt_compat_l; [lia | reflexivity].
Qed.

Lemma percentile_ranges_buckets (n : Z) :
  percentile_ranges n = Ok (map (bucket n) (py_range n)).
Proof.
  unfold percentile_ranges. apply mapM_Ok_map. intros i Hi. apply py_range_In in Hi.
  rewrite !py_truediv_bound by lia. reflexivity.
Qed.

(** *** The case analysis *)

Lemma first_branch_cons (cond : sqlexpr) (label : Z) (rest : list (sqlexpr * Z)) (c : Q) :
  first_branch ((cond, label) :: rest) c
  = if eval_sqlexpr cond c then Some label else first_branch rest c.
Proof. reflexivity. Qed.

Lemma eval_case_value (whens : list (sqlexpr * Z)) (c : Q) (k : Z) :
  eval_case whens c = CaseValue k <-> first_branch whens c = Some k.
Proof.
  destruct whens as [| w rest]; [split; discriminate |].
  unfold eval_case. destruct (first_branch (w :: rest) c) as [l |].
  - split; intros H; injection H as ->; reflexivity.
  - split; discriminate.
Qed.

Lemma eval_interval (lower upper c : Q) :
  eval_sqlexpr (and_ (CumeDistGt lower) (CumeDistLe upper)) c = true
  <-> (lower < c)%Q /\ (c <= upper)%Q.
Proof.
  cbn [eval_sqlexpr]. rewrite andb_true_iff, negb_true_iff, Qle_bool_iff.
  split; intros [Hlo Hhi]; split; try exact Hhi.
  - apply Qnot_le_lt. intros Hle. apply Qle_bool_iff in Hle.
    rewrite Hle in Hlo. discriminate Hlo.
  - destruct (Qle_bool c lower) eqn:E; [| reflexivity].
    apply Qle_bool_iff in E. exfalso. exact (Qlt_not_le _ _ Hlo E).
Qed.

(** The case analysis over the buckets [a], ..., [a + len - 1] picks one
    whose interval holds [c], for any [c] between their outer bounds. *)
Lemma first_branch_buckets (n : Z) (c : Q) (len a : nat) :
  (bound (Z.of_nat a) n < c)%Q ->
  (c <= bound (Z.of_nat a + Z.of_nat len) n)%Q ->
  exists k,
    first_branch (map (bucket n) (map Z.of_nat (seq a len))) c = Some k
    /\ Z.of_nat a + 1 <= k <= Z.of_nat a + Z.of_nat len
    /\ (bound (k - 1) n < c)%Q /\ (c <= bound k n)%Q.
Proof.
  revert a. induction len as [| len IH]; intros a Hlo Hhi.
  - exfalso. rewrite Z.add_0_r in Hhi. exact (Qlt_not_le _ _ Hlo Hhi).
  - cbn [seq map]. unfold bucket at 1. rewrite first_branch_cons.
    destruct (eval_sqlexpr _ c) eqn:E.
    + apply eval_interval in E. destruct E as [_ Hle].
      exists (Z.of_nat a + 1). split; [reflexivity |]. split; [lia |].
      rewrite Z.add_simpl_r. split; assumption.
    + assert (Hlo' : (bound (Z.of_nat (S a)) n < c)%Q).
      { rewrite Nat2Z.inj_succ. unfold Z.succ. apply Qnot_le_lt. intros Hle.
        rewrite (proj2 (eval_interval _ _ c) (conj Hlo Hle)) in E.
        discriminate E. }
      destruct (IH (S a) Hlo') as (k & Hk & Hrange & Hbounds).
      { replace (Z.of_nat (S a) + Z.of_nat len) with (Z.of_nat a + Z.of_nat (S len))
          by lia.
        exact Hhi. }
      exists k. split; [exact Hk |]. split; [lia | exact Hbounds].
Qed.

Lemma first_branch_Some_inv (n : Z) (c : Q) (l : list Z) (k : Z) :
  first_branch (map (bucket n) l) c = Some k ->
  exists i, In i l /\ k = i + 1 /\ (bound i n < c)%Q /\ (c <= bound (i + 1) n)%Q.
Proof.
  induction l as [| i l IH]; [discriminate |].
  cbn [map]. unfold bucket at 1. rewrite first_branch_cons.
  destruct (eval_sqlexpr _ c) eqn:E.
  - intros H. injection H as <-. exists i.
    split; [left; reflexivity |]. split; [reflexivity |].
    apply eval_interval. exact E.
  - intros H. destruct (IH H) as (j & Hj & Hrest). exists j.
    split; [right; exact Hj | exact Hrest].
Qed.

(** A bucket is assigned only from its own interval. *)
Lemma buckets_value_inv (n : Z) (c : Q) (k : Z) :
  eval_case (map (bucket n) (py_range n)) c = CaseValue k ->
  1 <= k <= n /\ (bound (k - 1) n < c)%Q /\ (c <= bound k n)%Q.
Proof.
  intros H. apply eval_case_value in H.
  destruct (first_branch_Some_inv n c _ k H) as (i & Hi & -> & Hlo & Hhi).
  apply py_range_In in Hi. rewrite Z.add_simpl_r. split; [lia |]. split; assumption.
Qed.

(** Every cumulative distribution in (0, 1] is assigned one. *)
Lemma buckets_cover (n : Z) (c : Q) :
  0 < n -> (0 < c)%Q -> (c <= 1)%Q ->
  exists k,
    eval_case (map (bucket n) (py_range n)) c = CaseValue k
    /\ 1 <= k <= n /\ (bound (k - 1) n < c)%Q /\ (c <= bound k n)%Q.
Proof.
  intros Hn Hpos Hle.
  destruct (first_branch_buckets n c (Z.to_nat n) 0) as (k & Hk & Hrange & Hbounds).
  - simpl. rewrite bound_zero. exact Hpos.
  - simpl. rewrite Z2Nat.id by lia. rewrite bound_one by exact Hn. exact Hle.
  - exists k. split; [apply eval_case_value; exact Hk |]. split; [lia | exact Hbounds].
Qed.

Lemma buckets_not_empty (n : Z) : 0 < n -> map (bucket n) (py_range n) <> [].
Proof.
  intros Hn E. apply (f_equal (@List.length _)) in E. rewrite length_map in E.
  pose proof (py_range_length n ltac:(lia)) as Hlen. rewrite E in Hlen. simpl in Hlen. lia.
Qed.

(** The double 0.1 is above 1/10, and it is in the first of ten buckets. *)
Example tenth_first_bucket :
  (1 # 10 < 3602879701896397 # 36028797018963968)%Q
  /\ exists ranges,
      percentile_ranges 10 = Ok ranges
      /\ eval_case ranges (3602879701896397 # 36028797018963968) = CaseValue 1.
Proof.
  split; [reflexivity |]. eexists.
  split; [vm_compute; reflexivity | vm_compute; reflexivity].
Qed.

(** *** The builder *)

Lemma not_named (label : string) (cols : list Column) :
  Forall (fun col => name col <> label) cols ->
  existsb (fun col => String.eqb (name col) label) cols = false.
Proof.
  induction 1 as [| col rest Hcol _ IH]; [reflexivity |]. simpl.
  rewrite IH. apply String.eqb_neq in Hcol. rewrite Hcol. reflexivity.
Qed.

Lemma column_named_last (key : string) (cols : list Column) (col : Column) :
  Forall (fun c => name c <> key) cols -> name col = key ->
  column_named key (cols ++ [col]) = Ok col.
Proof.
  intros Hall Hcol. induction Hall as [| c rest Hc _ IH]; simpl.
  - rewrite Hcol, String.eqb_refl. reflexivity.
  - replace (String.eqb key (name c)) with false; [exact IH |].
    symmetry. apply String.eqb_neq. intros E. apply Hc. symmetry. exact E.
Qed.

Lemma percentile_select_ranges (table : Table) (cols : list Column) (z : Z) (q : query) :
  _get_percentile_range_group_select table cols (PInt z) = Ok q ->
  query_ranges q = Some (map (bucket z) (py_range z)).
Proof.
  unfold _get_percentile_range_group_select. cbn [as_range_argument bind].
  intros E. apply bind_Ok_inv in E. destruct E as (cume_dist_columns & _ & E).
  rewrite percentile_ranges_buckets in E. cbn [bind] in E.
  apply bind_Ok_inv in E. destruct E as (ranges_columns & _ & E).
  apply bind_Ok_inv in E. destruct E as (range_id & _ & E).
  injection E as <-. reflexivity.
Qed.

Lemma percentile_select_Ok (table : Table) (cols : list Column) (z : Z) :
  reserved_free table ->
  exists q, _get_percentile_range_group_select table cols (PInt z) = Ok q.
Proof.
  intros Hfree. unfold reserved_free in Hfree.
  assert (Hcume : Forall (fun col => name col <> CUME_DIST) (map snd (columns table))).
  { eapply Forall_impl; [| exact Hfree]. intros col [H _]. exact H. }
  assert (Hrange : Forall (fun col => name col <> RANGE_ID) (map snd (columns table))).
  { eapply Forall_impl; [| exact Hfree]. intros col [_ H]. exact H. }
  unfold _get_percentile_range_group_select. cbn [as_range_argument bind relation_columns].
  rewrite (not_named CUME_DIST _ Hcume). cbn [bind].
  rewrite percentile_ranges_buckets. cbn [bind].
  set (selected := filter _ (_ ++ [mkColumn CUME_DIST None])).
  assert (Hsel : Forall (fun col => name col <> RANGE_ID) selected).
  { apply Forall_forall. intros col Hin. apply filter_In in Hin. destruct Hin as [Hin _].
    apply in_app_or in Hin. destruct Hin as [Hin | [<- | []]]; [| discriminate].
    apply in_map_iff in Hin. destruct Hin as (col0 & <- & Hin0).
    exact (proj1 (Forall_forall _ _) Hrange col0 Hin0). }
  rewrite (not_named RANGE_ID _ Hsel). cbn [bind].
  rewrite column_named_last.
  - cbn [bind]. eexists. reflexivity.
  - apply Forall_forall. intros col Hin. apply in_map_iff in Hin.
    destruct Hin as (col0 & <- & Hin0). exact (proj1 (Forall_forall _ _) Hsel col0 Hin0).
  - reflexivity.
Qed.

Lemma column_named_never_unknown (key : string) (cols : list Column) :
  column_named key cols <> Raise unknown_error.
Proof.
  induction cols as [| col rest IH]; simpl; [discriminate |].
  destruct (String.eqb key (name col)); [discriminate | exact IH].
Qed.

Lemma relation_columns_never_unknown (r : relation) :
  relation_columns r <> Raise unknown_error.
Proof.
  destruct r; simpl; [discriminate |]. destruct (existsb _ _); discriminate.
Qed.

Lemma percentile_select_never_unknown (table : Table) (cols : list Column) (n : pyobj) :
  _get_percentile_range_group_select table cols n <> Raise unknown_error.
Proof.
  unfold _get_percentile_range_group_select.
  apply bind_never_raises; [destruct n; discriminate | intros z].
  apply bind_never_raises; [apply relation_columns_never_unknown | intros cume_dist_columns].
  apply bind_never_raises; [rewrite percentile_ranges_buckets; discriminate | intros ranges].
  apply bind_never_raises; [apply relation_columns_never_unknown | intros ranges_columns].
  apply bind_never_raises; [apply column_named_never_unknown | intros range_id].
  discriminate.
Qed.

(** *** The dispatch *)

(** C8: once resolution has succeeded, the query is the percentile builder's
    (given the table, the resolved columns and [num_groups]) when
    [group_mode] is "percentile" and the distinct builder's when it is
    "distinct"; one of the two is the case, and the "Unknown error" of the
    last branch is never raised, whatever the [GroupBy]. *)
Theorem get_group_augmented_records_query_dispatch (table : Table) (group_by : GroupBy) :
  (forall cols,
      get_validated_group_by_columns group_by table = Ok cols ->
      (group_mode group_by = "percentile" ->
       get_group_augmented_records_query table group_by
       = _get_percentile_range_group_select table cols (num_groups group_by))
      /\ (group_mode group_by = "distinct" ->
          get_group_augmented_records_query table group_by
          = Ok (_get_distinct_group_select table cols))
      /\ recognised_mode (group_mode group_by))
  /\ (validate group_by = Ok tt -> recognised_mode (group_mode group_by))
  /\ get_group_augmented_records_query table group_by <> Raise (BadGroupFormat UnknownError).
Proof.
  assert (Hvalid : validate group_by = Ok tt -> recognised_mode (group_mode group_by)).
  { intros E. apply validate_Ok_inv in E. destruct E as (cols & _ & Hmode & _).
    exact Hmode. }
  split; [| split; [exact Hvalid |]].
  - intros cols Hcols. unfold get_group_augmented_records_query. rewrite Hcols. simpl.
    pose proof (get_validated_Ok_validate _ _ _ Hcols) as Hval.
    split; [| split].
    + intros ->. reflexivity.
    + intros ->. reflexivity.
    + exact (Hvalid Hval).
  - unfold get_group_augmented_records_query.
    destruct (get_validated_group_by_columns group_by table) as [cols | e] eqn:Hcols;
      cbn [bind].
    + pose proof (get_validated_Ok_validate _ _ _ Hcols) as Hval.
      destruct (Hvalid Hval) as [Hd | Hp].
      * rewrite Hd. cbn. discriminate.
      * rewrite Hp. cbn. apply percentile_select_never_unknown.
    + intros E. injection E as ->.
      exact (get_validated_never_unknown _ _ Hcols).
Qed.

Lemma get_group_augmented_records_query_dispatch_witness :
  get_group_augmented_records_query example_table
    (mkGroupBy (PList [PStr "a"]) "percentile" (PInt 4))
  = _get_percentile_range_group_select example_table [mkColumn "a" (Some "T")] (PInt 4)
  /\ get_group_augmented_records_query example_table (GroupBy_default (PList [PStr "a"]))
     = Ok (_get_distinct_group_select example_table [mkColumn "a" (Some "T")]).
Proof.
  split.
  - exact (proj1 (proj1 (get_group_augmented_records_query_dispatch example_table
                           (mkGroupBy (PList [PStr "a"]) "percentile" (PInt 4)))
                    [mkColumn "a" (Some "T")] eq_refl) eq_refl).
  - exact (proj1 (proj2 (proj1 (get_group_augmented_records_query_dispatch example_table
                                  (GroupBy_default (PList [PStr "a"])))
                           [mkColumn "a" (Some "T")] eq_refl)) eq_refl).
Defined.

(** *** The buckets of a positive [num_groups] *)




(** C10: in percentile mode [validate] accepts every [num_groups] of type
    int, zero and the negative ones included, as long as [column_list] is a
    list or tuple of strings and Columns; and for [num_groups <= 0] the
    comprehension of the percentile builder gives the empty list of bucket
    intervals, which is what every query the builder returns then holds (it
    returns one for every table that has no column named [cume_dist] or
    [range_id]). *)
Theorem validate_accepts_any_int (cols : pyobj) (items : list pyobj) (z : Z) :
  cols = PList items \/ cols = PTuple items ->
  Forall string_or_Column items ->
  validate (mkGroupBy cols "percentile" (PInt z)) = Ok tt
  /\ (z <= 0 ->
      percentile_ranges z = Ok []
      /\ (forall table grouping q,
            _get_percentile_range_group_select table grouping (PInt z) = Ok q ->
            query_ranges q = Some [])
      /\ (forall table grouping,
            reserved_free table ->
            exists q, _get_percentile_range_group_select table grouping (PInt z) = Ok q)).
Proof.
  intros Hseq Hall. split.
  - rewrite (validate_checks (mkGroupBy cols "percentile" (PInt z)) items Hseq).
    + apply validate_columns_Ok; exact Hall.
    + right; reflexivity.
    + intros _; exists z; reflexivity.
  - intros Hz.
    assert (Hnil : map (bucket z) (py_range z) = []).
    { rewrite py_range_nonpositive by exact Hz. reflexivity. }
    split; [rewrite percentile_ranges_buckets, Hnil; reflexivity |].
    split.
    + intros table grouping q Hq. rewrite <- Hnil.
      exact (percentile_select_ranges table grouping z q Hq).
    + intros table grouping. apply percentile_select_Ok.
Qed.

Lemma validate_accepts_any_int_witness :
  validate (mkGroupBy (PList [PStr "a"]) "percentile" (PInt (-3))) = Ok tt
  /\ percentile_ranges (-3) = Ok [].
Proof.
  destruct (validate_accepts_any_int (PList [PStr "a"]) [PStr "a"] (-3)
              (or_introl eq_refl)) as [Hval Hempty].
  - apply Forall_cons; [left; eexists; reflexivity | apply Forall_nil].
  - split; [exact Hval |]. apply Hempty. lia.
Defined.

(** ** The JSON codec *)

Lemma strip_prefix_app (p r : chars) : strip_prefix p (p ++ r) = Some r.
Proof.
  induction p as [| a p IH]; simpl.
  - reflexivity.
  - rewrite Ascii.eqb_refl. exact IH.
Qed.

(** Scanning an escaped character gives the character back. *)
Lemma scan_string_escape_char (c : ascii) (tail : chars) :
  scan_string (escape_char c ++ tail) = cons_fst c (scan_string tail).
Proof.
  destruct c as [[] [] [] [] [] [] [] []]; reflexivity.
Qed.

Lemma scan_string_escaped (body tail : chars) :
  scan_string (flat_map escape_char body ++ quote :: tail) = Some (body, tail).
Proof.
  induction body as [| c body IH]; simpl.
  - reflexivity.
  - rewrite <- app_assoc, scan_string_escape_char, IH. reflexivity.
Qed.

(** *** Numbers *)

Lemma delimiter_not_number (s : chars) :
  delimiter_follows s = true -> starts_fraction s = false /\ span_digits s = ([], s).
Proof.
  destruct s as [| c s]; simpl; [intros _; split; reflexivity |].
  rewrite !orb_true_iff, !Ascii.eqb_eq. intros [[-> | ->] | ->]; split; reflexivity.
Qed.

Lemma digits_of_all_digits (d : Decimal.uint) :
  Forall (fun c => is_digit c = true) (digits_of d).
Proof.
  induction d; simpl; constructor; try reflexivity; assumption.
Qed.

Lemma span_digits_app (ds rest : chars) :
  Forall (fun c => is_digit c = true) ds -> span_digits rest = ([], rest) ->
  span_digits (ds ++ rest) = (ds, rest).
Proof.
  intros Hds Hrest. induction Hds as [| c ds Hc _ IH]; simpl.
  - exact Hrest.
  - rewrite Hc, IH. reflexivity.
Qed.

Lemma unorm_D0 (x y : Decimal.uint) : Decimal.unorm x = Decimal.D0 y -> y = Decimal.Nil.
Proof.
  induction x; simpl; intros E; try discriminate E.
  - injection E as <-. reflexivity.
  - apply IHx; exact E.
Qed.

Lemma to_uint_unorm (p : positive) : Decimal.unorm (Pos.to_uint p) = Pos.to_uint p.
Proof.
  rewrite <- DecimalPos.Unsigned.to_of, DecimalPos.Unsigned.of_to. reflexivity.
Qed.

(** The decimal digits of a positive number: at least one, the first not 0. *)
Lemma to_uint_head (p : positive) :
  exists c tl,
    digits_of (Pos.to_uint p) = c :: tl
    /\ is_digit c = true /\ N.eqb (char_code c) 48 = false
    /\ N.eqb (char_code c) 45 = false.
Proof.
  pose proof (to_uint_unorm p) as Hnorm.
  pose proof (DecimalPos.Unsigned.to_uint_nonnil p) as Hnil.
  pose proof (DecimalPos.Unsigned.to_uint_nonzero p) as Hzero.
  destruct (Pos.to_uint p) as [| d | d | d | d | d | d | d | d | d | d] eqn:E;
    try (eexists; eexists; split; [reflexivity | repeat split; reflexivity]).
  - contradiction.
  - simpl in Hnorm. apply unorm_D0 in Hnorm. subst d. contradiction.
Qed.

Lemma decode_digits_of (p : positive) (rest : chars) :
  delimiter_follows rest = true ->
  decode_digits (digits_of (Pos.to_uint p) ++ rest) = Some (Npos p, rest).
Proof.
  intros Hrest. apply delimiter_not_number in Hrest. destruct Hrest as [_ Hspan].
  destruct (to_uint_head p) as (c & tl & Hd & Hc & H48 & _).
  pose proof (span_digits_app _ rest (digits_of_all_digits (Pos.to_uint p)) Hspan)
    as Hsp.
  unfold decode_digits. rewrite Hd in *. cbn [app]. rewrite H48, Hc.
  cbn [app] in Hsp. rewrite Hsp, <- Hd.
  unfold digits_of, chars_of. rewrite string_of_list_ascii_of_string, NilEmpty.usu.
  change (N.of_uint (Pos.to_uint p)) with (Pos.of_uint (Pos.to_uint p)).
  rewrite DecimalPos.Unsigned.of_to. reflexivity.
Qed.

Lemma decode_number_encode_int (z : Z) (rest : chars) :
  delimiter_follows rest = true ->
  decode_number (encode_int z ++ rest) = Some (VInt z, rest).
Proof.
  intros Hrest.
  pose proof (proj1 (delimiter_not_number rest Hrest)) as Hfrac.
  destruct z as [| p | p]; unfold decode_number, encode_int.
  - simpl. rewrite Hfrac. reflexivity.
  - fold (digits_of (Pos.to_uint p)).
    destruct (to_uint_head p) as (c & tl & Hd & _ & _ & H45).
    rewrite Hd. cbn [app]. rewrite H45.
    change (c :: tl ++ rest) with ((c :: tl) ++ rest). rewrite <- Hd.
    rewrite decode_digits_of by exact Hrest. rewrite Hfrac. reflexivity.
  - fold (digits_of (Pos.to_uint p)). cbn [app].
    change (N.eqb (char_code "-"%char) 45) with true. cbn iota.
    rewrite decode_digits_of by exact Hrest. rewrite Hfrac. reflexivity.
Qed.

(** *** Values *)

Lemma decode_value_number (fuel : nat) (c : ascii) (s : chars) :
  number_start c = true -> decode_value (S fuel) (c :: s) = decode_number (c :: s).
Proof.
  destruct c as [[] [] [] [] [] [] [] []]; intros H; try discriminate H; reflexivity.
Qed.

Lemma decode_value_quote (fuel : nat) (s : chars) :
  decode_value (S fuel) (quote :: s)
  = match scan_string s with
    | Some (body, r) => Some (VStr (string_of_list_ascii body), r)
    | None => None
    end.
Proof. reflexivity. Qed.

Lemma decode_value_bracket (fuel : nat) (s : chars) :
  decode_value (S fuel) ("["%char :: s)
  = match first_is "]"%char (skip_whitespace s) with
    | Some r => Some (VList [], r)
    | None =>
        match decode_items fuel s with
        | Some (items, r) => Some (VList items, r)
        | None => None
        end
    end.
Proof. reflexivity. Qed.

Lemma decode_value_brace (fuel : nat) (s : chars) :
  decode_value (S fuel) ("{"%char :: s)
  = match first_is "}"%char (skip_whitespace s) with
    | Some r => Some (VDict [], r)
    | None =>
        match decode_members fuel s with
        | Some (pairs, r) => Some (VDict (dict_of_pairs pairs), r)
        | None => None
        end
    end.
Proof. reflexivity. Qed.

Lemma decode_value_space (fuel : nat) (s : chars) :
  decode_value fuel (" "%char :: s) = decode_value fuel s.
Proof. destruct fuel; reflexivity. Qed.

Lemma decode_items_S (fuel : nat) (s : chars) :
  decode_items (S fuel) s
  = match decode_value fuel s with
    | Some (v, r) =>
        match first_is ","%char (skip_whitespace r) with
        | Some r' => cons_fst v (decode_items fuel r')
        | None =>
            match first_is "]"%char (skip_whitespace r) with
            | Some r' => Some ([v], r')
            | None => None
            end
        end
    | None => None
    end.
Proof. reflexivity. Qed.

Lemma decode_items_space (fuel : nat) (s : chars) :
  decode_items fuel (" "%char :: s) = decode_items fuel s.
Proof.
  destruct fuel; [reflexivity |]. rewrite !decode_items_S, decode_value_space.
  reflexivity.
Qed.

Lemma decode_members_quote (fuel : nat) (s : chars) :
  decode_members (S fuel) (quote :: s)
  = match scan_string s with
    | Some (key, r1) =>
        match first_is ":"%char (skip_whitespace r1) with
        | Some r2 =>
            match decode_value fuel r2 with
            | Some (v, r3) =>
                match first_is ","%char (skip_whitespace r3) with
                | Some r4 =>
                    cons_fst (string_of_list_ascii key, v) (decode_members fuel r4)
                | None =>
                    match first_is "}"%char (skip_whitespace r3) with
                    | Some r4 => Some ([(string_of_list_ascii key, v)], r4)
                    | None => None
                    end
                end
            | None => None
            end
        | None => None
        end
    | None => None
    end.
Proof. reflexivity. Qed.

Lemma decode_members_space (fuel : nat) (s : chars) :
  decode_members fuel (" "%char :: s) = decode_members fuel s.
Proof. destruct fuel; reflexivity. Qed.

(** A character a value starts with is no whitespace and closes nothing. *)
Lemma value_start_opens (c : ascii) (s : chars) :
  value_start c = true ->
  first_is "]"%char (skip_whitespace (c :: s)) = None
  /\ first_is "}"%char (skip_whitespace (c :: s)) = None.
Proof.
  destruct c as [[] [] [] [] [] [] [] []]; intros H; try discriminate H;
    split; reflexivity.
Qed.

Lemma encode_int_head (z : Z) :
  exists c tl, encode_int z = c :: tl /\ number_start c = true.
Proof.
  destruct z as [| p | p]; simpl.
  - eexists; eexists; split; reflexivity.
  - destruct (to_uint_head p) as (c & tl & Hd & Hc & _).
    exists c, tl. split; [exact Hd |]. unfold number_start. rewrite Hc. reflexivity.
  - eexists; eexists; split; reflexivity.
Qed.

Lemma encode_head (v : value) :
  exists c tl, encode v = c :: tl /\ value_start c = true.
Proof.
  destruct v as [| [] | z | s | items | items]; simpl;
    try (eexists; eexists; split; reflexivity).
  destruct (encode_int_head z) as (c & tl & Hz & Hc).
  exists c, tl. split; [exact Hz |]. unfold value_start. rewrite Hc. reflexivity.
Qed.

Lemma join_cons_cons (separator x y : chars) (rest : list chars) :
  join separator (x :: y :: rest) = x ++ separator ++ join separator (y :: rest).
Proof. reflexivity. Qed.

(** Setting keys that are all new, one after the other, appends the pairs. *)
Lemma dict_set_new (key : string) (v : value) (d : dict) :
  existsb (String.eqb key) (map fst d) = false -> dict_set key v d = d ++ [(key, v)].
Proof.
  induction d as [| [k v'] d IH]; simpl; intros H.
  - reflexivity.
  - apply orb_false_iff in H. destruct H as [Hk Hd].
    rewrite Hk, IH by exact Hd. reflexivity.
Qed.

Lemma fold_dict_set_distinct (pairs acc : dict) :
  distinct_keys (map fst pairs) = true ->
  (forall k, In k (map fst pairs) -> existsb (String.eqb k) (map fst acc) = false) ->
  fold_left (fun d kv => dict_set (fst kv) (snd kv) d) pairs acc = acc ++ pairs.
Proof.
  revert acc. induction pairs as [| [k v] pairs IH]; intros acc Hdist Hnew; simpl.
  - rewrite List.app_nil_r. reflexivity.
  - simpl in Hdist. apply andb_true_iff in Hdist. destruct Hdist as [Hk Hdist].
    apply negb_true_iff in Hk.
    rewrite dict_set_new by (apply Hnew; left; reflexivity).
    rewrite IH; [rewrite <- app_assoc; reflexivity | exact Hdist |].
    intros k' Hk'. rewrite map_app, existsb_app. simpl.
    rewrite (Hnew k') by (right; exact Hk'). simpl. rewrite orb_false_r.
    destruct (String.eqb k' k) eqn:E; [| reflexivity].
    apply String.eqb_eq in E. subst k'.
    assert (Hex : existsb (String.eqb k) (map fst pairs) = true).
    { apply existsb_exists. exists k. split; [exact Hk' | apply String.eqb_refl]. }
    rewrite Hex in Hk. discriminate Hk.
Qed.

Lemma dict_of_pairs_distinct (pairs : dict) :
  distinct_keys (map fst pairs) = true -> dict_of_pairs pairs = pairs.
Proof.
  intros H. unfold dict_of_pairs. rewrite fold_dict_set_distinct; [reflexivity | exact H |].
  intros k _. reflexivity.
Qed.

Lemma encode_VList (items : list value) :
  encode (VList items) = "["%char :: join separator (map encode items) ++ ["]"%char].
Proof. reflexivity. Qed.

Lemma encode_VDict (items : dict) :
  encode (VDict items)
  = "{"%char :: join separator (map encode_member items) ++ ["}"%char].
Proof. reflexivity. Qed.

Lemma comma_after_value (s : chars) :
  first_is ","%char (skip_whitespace (separator ++ s)) = Some (" "%char :: s).
Proof. reflexivity. Qed.

Lemma decode_items_encoded (items : list value) :
  Forall decodes items ->
  forall fuel rest,
    items <> [] -> forallb well_formed items = true ->
    (List.length (join separator (map encode items)) + 2 <= fuel)%nat ->
    decode_items fuel (join separator (map encode items) ++ "]"%char :: rest)
    = Some (items, rest).
Proof.
  induction 1 as [| x xs Hx _ IH]; intros fuel rest Hne Hwf Hfuel;
    [contradiction |].
  cbn [forallb] in Hwf. apply andb_true_iff in Hwf. destruct Hwf as [Hwfx Hwfxs].
  destruct fuel as [| fuel]; [lia |]. rewrite decode_items_S.
  destruct xs as [| y xs].
  - cbn [map join] in *.
    rewrite (Hx fuel ("]"%char :: rest) Hwfx eq_refl) by lia. reflexivity.
  - cbn [map] in *. rewrite join_cons_cons in *.
    rewrite !length_app in Hfuel. change (List.length separator) with 2%nat in Hfuel.
    rewrite <- !app_assoc.
    rewrite (Hx fuel (separator ++ join separator (encode y :: map encode xs)
                                ++ "]"%char :: rest) Hwfx eq_refl) by lia.
    rewrite comma_after_value, decode_items_space, IH;
      [reflexivity | discriminate | exact Hwfxs | lia].
Qed.

Lemma encode_member_app (k : string) (v : value) (tail : chars) :
  encode_member (k, v) ++ tail
  = quote :: flat_map escape_char (chars_of k)
    ++ quote :: ":"%char :: " "%char :: encode v ++ tail.
Proof.
  unfold encode_member, encode_string. cbn [fst snd].
  rewrite <- !app_assoc. cbn [app]. rewrite <- !app_assoc. reflexivity.
Qed.

Lemma encode_member_length (k : string) (v : value) :
  (List.length (encode v) + 4 <= List.length (encode_member (k, v)))%nat.
Proof.
  unfold encode_member, encode_string. cbn [fst snd].
  rewrite !length_app. cbn [List.length]. rewrite length_app. simpl. lia.
Qed.

Lemma colon_after_key (s : chars) :
  first_is ":"%char (skip_whitespace (":"%char :: " "%char :: s)) = Some (" "%char :: s).
Proof. reflexivity. Qed.

Lemma decode_members_encoded (items : dict) :
  Forall (fun kv => decodes (snd kv)) items ->
  forall fuel rest,
    items <> [] -> forallb (fun kv => well_formed (snd kv)) items = true ->
    (List.length (join separator (map encode_member items)) + 2 <= fuel)%nat ->
    decode_members fuel (join separator (map encode_member items) ++ "}"%char :: rest)
    = Some (items, rest).
Proof.
  induction 1 as [| [k x] xs Hx _ IH]; intros fuel rest Hne Hwf Hfuel;
    [contradiction |].
  cbn [forallb snd] in Hwf, Hx. apply andb_true_iff in Hwf. destruct Hwf as [Hwfx Hwfxs].
  destruct fuel as [| fuel]; [lia |].
  pose proof (encode_member_length k x) as Hlen.
  destruct xs as [| y xs].
  - cbn [map join] in *.
    rewrite encode_member_app, decode_members_quote, scan_string_escaped.
    rewrite colon_after_key, decode_value_space.
    rewrite (Hx fuel ("}"%char :: rest) Hwfx eq_refl) by lia.
    unfold chars_of. rewrite string_of_list_ascii_of_string. reflexivity.
  - cbn [map] in *. rewrite join_cons_cons in *.
    rewrite !length_app in Hfuel. change (List.length separator) with 2%nat in Hfuel.
    rewrite <- app_assoc.
    rewrite encode_member_app, decode_members_quote, scan_string_escaped.
    rewrite colon_after_key, decode_value_space.
    rewrite <- app_assoc.
    rewrite (Hx fuel (separator ++ join separator (encode_member y :: map encode_member xs)
                                ++ "}"%char :: rest) Hwfx eq_refl) by lia.
    rewrite comma_after_value, decode_members_space, IH;
      [| discriminate | exact Hwfxs | lia].
    unfold chars_of. rewrite string_of_list_ascii_of_string. reflexivity.
Qed.

Theorem decode_encode (v : value) : decodes v.
Proof.
  induction v as [| b | z | s | items IH | items IH] using value_nested_ind;
    intros fuel rest Hwf Hrest Hfuel; (destruct fuel as [| fuel]; [lia |]).
  - reflexivity.
  - destruct b; reflexivity.
  - cbn [encode] in *. destruct (encode_int_head z) as (c & tl & Hz & Hc).
    rewrite Hz. cbn [app]. rewrite decode_value_number by exact Hc.
    change (c :: tl ++ rest) with ((c :: tl) ++ rest). rewrite <- Hz.
    apply decode_number_encode_int; exact Hrest.
  - cbn [encode]. unfold encode_string. cbn [app]. rewrite <- app_assoc. cbn [app].
    rewrite decode_value_quote, scan_string_escaped.
    unfold chars_of. rewrite string_of_list_ascii_of_string. reflexivity.
  - rewrite encode_VList in *. cbn [app]. rewrite <- app_assoc. cbn [app].
    rewrite decode_value_bracket.
    destruct items as [| x xs]; [reflexivity |].
    destruct (encode_head x) as (c & tl & Hx & Hc).
    assert (Hopen : first_is "]"%char
                      (skip_whitespace (join separator (map encode (x :: xs))
                                        ++ "]"%char :: rest)) = None).
    { destruct xs as [| y xs]; cbn [map]; [cbn [join] | rewrite join_cons_cons];
        rewrite Hx; cbn [app]; apply value_start_opens; exact Hc. }
    rewrite Hopen, (decode_items_encoded _ IH); [reflexivity | discriminate | |].
    + exact Hwf.
    + cbn [List.length] in Hfuel. rewrite length_app in Hfuel.
      cbn [List.length] in Hfuel. lia.
  - rewrite encode_VDict in *. cbn [app]. rewrite <- app_assoc. cbn [app].
    rewrite decode_value_brace.
    destruct items as [| [k x] xs]; [reflexivity |].
    cbn [well_formed] in Hwf. apply andb_true_iff in Hwf. destruct Hwf as [Hkeys Hwf].
    assert (Hopen : first_is "}"%char
                      (skip_whitespace (join separator (map encode_member ((k, x) :: xs))
                                        ++ "}"%char :: rest)) = None).
    { destruct xs as [| y xs]; cbn [map]; [cbn [join] | rewrite join_cons_cons];
        [| rewrite <- app_assoc]; rewrite encode_member_app; reflexivity. }
    rewrite Hopen, (decode_members_encoded _ IH); [| discriminate | exact Hwf |].
    + rewrite dict_of_pairs_distinct by exact Hkeys. reflexivity.
    + cbn [List.length] in Hfuel. rewrite length_app in Hfuel.
      cbn [List.length] in Hfuel. lia.
Qed.

(** [json.loads(json.dumps(v))] is [v]. *)
Theorem loads_dumps (v : value) : well_formed v = true -> loads (dumps v) = Ok v.
Proof.
  intros Hwf. unfold loads, dumps, chars_of.
  rewrite list_ascii_of_string_of_list_ascii.
  assert (Hlen : String.length (string_of_list_ascii (encode v)) = List.length (encode v)).
  { induction (encode v) as [| c l IH]; simpl; [reflexivity | rewrite IH; reflexivity]. }
  rewrite Hlen.
  pose proof (decode_encode v (S (List.length (encode v))) [] Hwf eq_refl) as H.
  rewrite List.app_nil_r in H. rewrite H by lia. reflexivity.
Qed.

Lemma dumps_inj (v w : value) :
  well_formed v = true -> well_formed w = true -> dumps v = dumps w -> v = w.
Proof.
  intros Hv Hw E. apply loads_dumps in Hv, Hw. rewrite E, Hw in Hv.
  injection Hv as ->. reflexivity.
Qed.

(** ** Sorting by an integer key *)

Lemma mapM_Ok_In {A B : Type} (f : A -> result B) (l : list A) (l' : list B) (x : A) :
  mapM f l = Ok l' -> In x l -> exists y, f x = Ok y /\ In y l'.
Proof.
  intros E. apply mapM_Ok_Forall2 in E.
  induction E as [| a b l l' Hab _ IH]; intros Hin.
  - destruct Hin.
  - destruct Hin as [-> | Hin].
    + exists b. split; [exact Hab | left; reflexivity].
    + destruct (IH Hin) as (y & Hy & Hy'). exists y. split; [exact Hy | right; exact Hy'].
Qed.

Section sorting.

Context {A : Type}.

Lemma insert_sorted_ints (kx : value * A) (acc : list (value * A)) :
  int_keyed kx -> Forall int_keyed acc -> StronglySorted keys_ascend acc ->
  exists acc',
    insert_sorted kx acc = Ok acc'
    /\ Permutation (kx :: acc) acc'
    /\ StronglySorted keys_ascend acc'.
Proof.
  intros (x & Hx) Hint Hsorted.
  induction Hsorted as [| ky rest Hrest IH Hky]; simpl.
  - exists [kx]. split; [reflexivity |]. split; [apply Permutation_refl |].
    constructor; constructor.
  - apply Forall_cons_iff in Hint. destruct Hint as [(y & Hy) Hint].
    rewrite Hx, Hy. cbn [py_lt bind].
    destruct (Z.ltb x y) eqn:Hlt.
    + exists (kx :: ky :: rest). split; [reflexivity |].
      split; [apply Permutation_refl |].
      apply Z.ltb_lt in Hlt. constructor; [constructor; assumption |].
      constructor.
      * exists x, y. repeat split; [assumption | assumption | lia].
      * apply Forall_forall. intros kz Hkz.
        rewrite Forall_forall in Hky. destruct (Hky kz Hkz) as (y' & z & Hy' & Hz & Hle).
        rewrite Hy in Hy'. injection Hy' as <-.
        exists x, z. repeat split; [assumption | assumption | lia].
    + apply Z.ltb_ge in Hlt.
      destruct (IH Hint) as (rest' & Hins & Hperm & Hsorted').
      rewrite Hins. cbn [bind]. exists (ky :: rest'). split; [reflexivity |].
      split.
      * apply Permutation_trans with (ky :: kx :: rest);
          [apply perm_swap | apply perm_skip; exact Hperm].
      * constructor; [exact Hsorted' |].
        apply (Permutation_Forall Hperm). constructor; [| exact Hky].
        exists y, x. repeat split; assumption.
Qed.

Lemma sort_into_ints (todo acc : list (value * A)) :
  Forall int_keyed todo -> Forall int_keyed acc -> StronglySorted keys_ascend acc ->
  exists out,
    sort_into acc todo = Ok out
    /\ Permutation (acc ++ todo) out
    /\ StronglySorted keys_ascend out.
Proof.
  intros Htodo. revert acc.
  induction Htodo as [| kx todo Hkx _ IH]; intros acc Hacc Hsorted; simpl.
  - exists acc. rewrite List.app_nil_r. split; [reflexivity |].
    split; [apply Permutation_refl | exact Hsorted].
  - destruct (insert_sorted_ints kx acc Hkx Hacc Hsorted) as (acc' & Hins & Hperm & Hs).
    rewrite Hins. cbn [bind].
    destruct (IH acc') as (out & Hout & Hperm' & Hs').
    + apply (Permutation_Forall Hperm). constructor; assumption.
    + exact Hs.
    + exists out. split; [exact Hout |]. split; [| exact Hs'].
      apply Permutation_trans with (acc' ++ todo); [| exact Hperm'].
      apply Permutation_trans with ((kx :: acc) ++ todo).
      * apply Permutation_sym, Permutation_middle.
      * apply Permutation_app_tail. exact Hperm.
Qed.

Lemma sorted_ints (key : A -> result value) (xs : list A) :
  (forall x, In x xs -> exists z, key x = Ok (VInt z)) ->
  exists out,
    sorted xs key = Ok out
    /\ Permutation xs out
    /\ StronglySorted (ascend_by key) out.
Proof.
  intros Hkeys. unfold sorted.
  set (tag := fun x => match key x with
                       | Ok k => (k, x)
                       | Raise _ => (VNone, x)
                       end).
  assert (Hmap : mapM (fun x => k <- key x ;; Ok (k, x)) xs = Ok (map tag xs)).
  { apply mapM_Ok_map. intros x Hx. destruct (Hkeys x Hx) as (z & Hz).
    unfold tag. rewrite Hz. reflexivity. }
  rewrite Hmap. cbn [bind].
  assert (Hall : Forall (fun kx => int_keyed kx /\ key (snd kx) = Ok (fst kx))
                        (map tag xs)).
  { apply Forall_forall. intros kx Hkx. apply in_map_iff in Hkx.
    destruct Hkx as (x & <- & Hx). destruct (Hkeys x Hx) as (z & Hz).
    unfold tag. rewrite Hz. split; [exists z; reflexivity | exact Hz]. }
  destruct (sort_into_ints (map tag xs) []) as (out & Hout & Hperm & Hsorted).
  - apply (Forall_impl _ (fun kx H => proj1 H) Hall).
  - constructor.
  - constructor.
  - rewrite Hout. cbn [bind]. exists (map snd out). split; [reflexivity |]. split.
    + apply Permutation_trans with (map snd (map tag xs)).
      * rewrite map_map. assert (E : map (fun x => snd (tag x)) xs = xs).
        { rewrite <- (map_id xs) at 2. apply map_ext. intros x. unfold tag.
          destruct (key x); reflexivity. }
        rewrite E. apply Permutation_refl.
      * apply Permutation_map. exact Hperm.
    + cbn [app] in Hperm. pose proof (Permutation_Forall Hperm Hall) as Hall'.
      clear - Hsorted Hall'.
      induction Hsorted as [| kx rest Hrest IH Hkx]; simpl; constructor.
      * apply IH. apply Forall_inv_tail in Hall'. exact Hall'.
      * apply Forall_cons_iff in Hall'. destruct Hall' as [[_ Hk] Hall'].
        apply Forall_forall. intros b Hb. apply in_map_iff in Hb.
        destruct Hb as (ky & <- & Hky).
        rewrite Forall_forall in Hkx, Hall'.
        destruct (Hkx ky Hky) as (x & y & Hx & Hy & Hle).
        destruct (Hall' ky Hky) as [_ Hk'].
        exists x, y. rewrite Hk, Hk', Hx, Hy. repeat split; [reflexivity .. | exact Hle].
Qed.

End sorting.

(** ** The rows of the extractor *)

Lemma dict_or_single (d : dict) (key : string) (v : value) :
  dict_or d (dict_of_pairs [(key, v)]) = dict_set key v d.
Proof. reflexivity. Qed.

Lemma dict_get_set (key k : string) (v : value) (d : dict) :
  dict_get k (dict_set key v d) = if String.eqb k key then Some v else dict_get k d.
Proof.
  induction d as [| [k' v'] d IH]; simpl.
  - destruct (String.eqb k key); reflexivity.
  - destruct (String.eqb key k') eqn:E; simpl.
    + apply String.eqb_eq in E. subst k'.
      destruct (String.eqb k key); reflexivity.
    + rewrite IH. destruct (String.eqb k k') eqn:E'; [| reflexivity].
      apply String.eqb_eq in E'. subst k'. rewrite String.eqb_sym, E. reflexivity.
Qed.

Lemma dict_get_without (key k : string) (d : dict) :
  dict_get k (dict_without key d) = if String.eqb k key then None else dict_get k d.
Proof.
  unfold dict_without. induction d as [| [k' v'] d IH]; simpl.
  - destruct (String.eqb k key); reflexivity.
  - destruct (String.eqb k' key) eqn:E; simpl.
    + rewrite IH. apply String.eqb_eq in E. subst k'.
      destruct (String.eqb k key); reflexivity.
    + rewrite IH. destruct (String.eqb k k') eqn:E'; [| reflexivity].
      apply String.eqb_eq in E'. subst k'. rewrite E. reflexivity.
Qed.

Lemma dict_without_idem (key : string) (d : dict) :
  dict_without key (dict_without key d) = dict_without key d.
Proof.
  unfold dict_without. induction d as [| [k v] d IH]; simpl; [reflexivity |].
  destruct (String.eqb k key) eqn:E; simpl; [exact IH |].
  rewrite E. simpl. rewrite IH. reflexivity.
Qed.

Lemma dict_set_set (key : string) (v w : value) (d : dict) :
  dict_set key w (dict_set key v d) = dict_set key w d.
Proof.
  induction d as [| [k v'] d IH]; simpl.
  - rewrite String.eqb_refl. reflexivity.
  - destruct (String.eqb key k) eqn:E; simpl; rewrite E; [reflexivity |].
    rewrite IH. reflexivity.
Qed.

(** A record with its two sections under different keys. *)
Lemma row_of_pairs (data_key metadata_key : string) (data metadata : value) :
  data_key <> metadata_key ->
  dict_of_pairs [(data_key, data); (metadata_key, metadata)]
  = [(data_key, data); (metadata_key, metadata)].
Proof.
  intros Hne. apply String.eqb_neq in Hne. unfold dict_of_pairs. simpl.
  rewrite String.eqb_sym, Hne. reflexivity.
Qed.

(** What [_get_record_pieces] has read and built when it returns. *)
Lemma _get_record_pieces_inv (data_key metadata_key : string) (record out : dict)
  (group : value) :
  _get_record_pieces data_key metadata_key record = Ok (out, group) ->
  exists data raw existing,
    dict_get data_key record = Some (VDict data)
    /\ dict_get_default MATHESAR_GROUP_METADATA data (VDict []) = VDict raw
    /\ dict_get_default metadata_key record (VDict []) = VDict existing
    /\ out = dict_of_pairs
               [(data_key, VDict (dict_without MATHESAR_GROUP_METADATA data));
                (metadata_key,
                 VDict (dict_set group_id_key (dict_get_default group_id_key raw VNone)
                                 existing))]
    /\ group = if truthy (VDict raw) then VDict raw else VNone.
Proof.
  unfold _get_record_pieces, subscript. intros E.
  destruct (dict_get data_key record) as [section |]; [| discriminate E].
  cbn [bind] in E.
  destruct section as [| | | | | data]; try discriminate E. cbn [dict_items bind] in E.
  destruct (dict_get_default MATHESAR_GROUP_METADATA data (VDict []))
    as [| | | | | raw] eqn:Hraw; try discriminate E.
  cbn [dict_items bind] in E.
  destruct (dict_get_default metadata_key record (VDict []))
    as [| | | | | existing] eqn:Hex; try discriminate E.
  cbn [py_or bind] in E. rewrite dict_or_single in E. injection E as <- <-.
  exists data, raw, existing. repeat split; reflexivity || assumption.
Qed.

Lemma _get_record_pieces_Ok (data_key metadata_key : string) (record data raw existing : dict) :
  dict_get data_key record = Some (VDict data) ->
  dict_get_default MATHESAR_GROUP_METADATA data (VDict []) = VDict raw ->
  dict_get_default metadata_key record (VDict []) = VDict existing ->
  _get_record_pieces data_key metadata_key record
  = Ok (dict_of_pairs
          [(data_key, VDict (dict_without MATHESAR_GROUP_METADATA data));
           (metadata_key,
            VDict (dict_set group_id_key (dict_get_default group_id_key raw VNone)
                            existing))],
        if truthy (VDict raw) then VDict raw else VNone).
Proof.
  intros Hdata Hraw Hex. unfold _get_record_pieces, subscript.
  rewrite Hdata. cbn [bind dict_items]. rewrite Hraw. cbn [bind dict_items].
  rewrite Hex. reflexivity.
Qed.

(** ** The group table *)

Lemma has_group_metadata_pieces (data_key metadata_key : string) (record : dict) :
  has_group_metadata data_key metadata_key record = true ->
  exists out raw z,
    _get_record_pieces data_key metadata_key record = Ok (out, VDict raw)
    /\ raw_group_metadata data_key record = VDict raw
    /\ well_formed (VDict raw) = true
    /\ dict_get group_id_key raw = Some (VInt z).
Proof.
  unfold has_group_metadata. intros H.
  apply andb_true_iff in H. destruct H as [Hraw Hex].
  destruct (raw_group_metadata data_key record) as [| | | | | raw] eqn:Eraw;
    try discriminate Hraw.
  apply andb_true_iff in Hraw. destruct Hraw as [Hraw Hid].
  apply andb_true_iff in Hraw. destruct Hraw as [Htruthy Hwf].
  destruct (dict_get group_id_key raw) as [[| | z | | |] |] eqn:Egid; try discriminate Hid.
  destruct (dict_get_default metadata_key record (VDict [])) as [| | | | | existing] eqn:Eex;
    try discriminate Hex.
  unfold raw_group_metadata in Eraw.
  destruct (dict_get data_key record) as [[| | | | | data] |] eqn:Edata;
    try (injection Eraw as <-; discriminate Htruthy).
  eexists; exists raw, z.
  rewrite (_get_record_pieces_Ok _ _ _ _ _ _ Edata Eraw Eex), Htruthy.
  repeat split; assumption || reflexivity.
Qed.

Lemma set_list_singleton {set_order : SetOrder} (x : string) (xs : list string) :
  xs <> [] -> (forall y, In y xs -> y = x) -> set_list xs = [x].
Proof.
  intros Hne Hall.
  pose proof (set_list_NoDup xs) as Hnodup.
  assert (Hin : forall y, In y (set_list xs) <-> y = x).
  { intros y. rewrite set_list_In. split; [apply Hall |].
    intros ->. destruct xs as [| y ys]; [contradiction |].
    rewrite (Hall y (or_introl eq_refl)). left; reflexivity. }
  destruct (set_list xs) as [| a [| b l]].
  - exfalso. apply (proj2 (Hin x) eq_refl).
  - rewrite (proj1 (Hin a) (or_introl eq_refl)). reflexivity.
  - exfalso. inversion Hnodup as [| ? ? Hnotin _]; subst. apply Hnotin.
    rewrite (proj1 (Hin a) (or_introl eq_refl)).
    rewrite <- (proj1 (Hin b) (or_intror (or_introl eq_refl))). left; reflexivity.
Qed.

Section table.

Context {set_order : SetOrder}.
Variables data_key metadata_key : string.

Lemma extract_group_metadata_inv (records rows : list dict) (table : list value) :
  extract_group_metadata data_key metadata_key records = Ok (rows, table) ->
  exists pieces blobs,
    mapM (_get_record_pieces data_key metadata_key) records = Ok pieces
    /\ records <> []
    /\ rows = map fst pieces
    /\ mapM loads (set_list (map dumps (map snd pieces))) = Ok blobs
    /\ sorted blobs group_id_of = Ok table.
Proof.
  unfold extract_group_metadata. intros E.
  apply bind_Ok_inv in E. destruct E as (pieces & Hpieces & E).
  apply bind_Ok_inv in E. destruct E as (tups & Htups & E).
  cbv zeta in E.
  apply bind_Ok_inv in E. destruct E as (blobs & Hblobs & E).
  apply bind_Ok_inv in E. destruct E as (reduced & Hsorted & E).
  injection E as <- <-.
  destruct pieces as [| p pieces]; [discriminate Htups |].
  injection Htups as <-. exists (p :: pieces), blobs.
  repeat split; try assumption.
  intros ->. discriminate Hpieces.
Qed.

(** The table of records that all carry group metadata: one entry for each
    distinct raw metadata object, in ascending order of [group_id]. *)
Lemma extract_group_metadata_table (records : list dict) :
  records <> [] ->
  Forall (fun r => has_group_metadata data_key metadata_key r = true) records ->
  exists rows table,
    extract_group_metadata data_key metadata_key records = Ok (rows, table)
    /\ NoDup table
    /\ (forall g, In g table <-> In g (map (raw_group_metadata data_key) records))
    /\ StronglySorted (ascend_by group_id_of) table.
Proof.
  intros Hne Hall.
  (* every record splits into its row and its raw metadata *)
  assert (Hpieces : exists pieces,
             mapM (_get_record_pieces data_key metadata_key) records = Ok pieces
             /\ map snd pieces = map (raw_group_metadata data_key) records).
  { clear Hne. induction Hall as [| r rest Hr _ (pieces & IH & Hsnd)].
    - exists []. split; reflexivity.
    - destruct (has_group_metadata_pieces _ _ _ Hr) as (out & raw & z & Hp & Hraw & _).
      exists ((out, VDict raw) :: pieces). simpl. rewrite Hp, IH. simpl.
      rewrite Hraw, Hsnd. split; reflexivity. }
  destruct Hpieces as (pieces & Hpieces & Hsnd).
  assert (Hgroups : forall g,
             In g (map (raw_group_metadata data_key) records) ->
             well_formed g = true /\ exists z, group_id_of g = Ok (VInt z)).
  { intros g Hg. apply in_map_iff in Hg. destruct Hg as (r & <- & Hr).
    rewrite Forall_forall in Hall.
    destruct (has_group_metadata_pieces _ _ _ (Hall r Hr))
      as (out & raw & z & _ & Hraw & Hwf & Hid).
    rewrite Hraw. split; [exact Hwf |]. exists z.
    unfold group_id_of, subscript. rewrite Hid. reflexivity. }
  set (groups := map (raw_group_metadata data_key) records) in *.
  set (texts := set_list (map dumps groups)).
  (* every text of the set is the serialisation of one of the groups *)
  assert (Htexts : forall s, In s texts -> exists g, In g groups /\ s = dumps g).
  { intros s Hs. apply set_list_In, in_map_iff in Hs.
    destruct Hs as (g & <- & Hg). exists g. split; [exact Hg | reflexivity]. }
  set (parse := fun s => match loads s with Ok v => v | Raise _ => VNone end).
  assert (Hparse : forall g, In g groups -> parse (dumps g) = g).
  { intros g Hg. unfold parse. rewrite loads_dumps; [reflexivity | apply Hgroups, Hg]. }
  assert (Hloads : mapM loads texts = Ok (map parse texts)).
  { apply mapM_Ok_map. intros s Hs. destruct (Htexts s Hs) as (g & Hg & ->).
    rewrite Hparse by exact Hg. apply loads_dumps, Hgroups, Hg. }
  assert (Hin : forall g, In g (map parse texts) <-> In g groups).
  { intros g. rewrite in_map_iff. split.
    - intros (s & <- & Hs). destruct (Htexts s Hs) as (g' & Hg' & ->).
      rewrite Hparse; assumption.
    - intros Hg. exists (dumps g). split; [apply Hparse, Hg |].
      apply set_list_In, in_map. exact Hg. }
  assert (Hnodup : NoDup (map parse texts)).
  { apply NoDup_map_NoDup_ForallPairs; [| apply set_list_NoDup].
    intros s s' Hs Hs' E.
    destruct (Htexts s Hs) as (g & Hg & ->). destruct (Htexts s' Hs') as (g' & Hg' & ->).
    rewrite !Hparse in E by assumption. rewrite E. reflexivity. }
  destruct (sorted_ints group_id_of (map parse texts)) as (table & Hsorted & Hperm & Hasc).
  { intros g Hg. apply Hin, Hgroups in Hg. exact (proj2 Hg). }
  exists (map fst pieces), table. split; [| split; [| split]].
  - unfold extract_group_metadata. rewrite Hpieces. cbn [bind].
    destruct pieces as [| p pieces].
    + destruct records; [contradiction | discriminate Hsnd].
    + cbn [unzip_pairs bind fst snd]. rewrite Hsnd. fold groups. fold texts.
      rewrite Hloads. cbn [bind]. rewrite Hsorted. reflexivity.
  - exact (Permutation_NoDup Hperm Hnodup).
  - intros g. rewrite <- Hin. split; apply Permutation_in;
      [apply Permutation_sym |]; exact Hperm.
  - exact Hasc.
Qed.

End table.

(** ** The extractor on particular inputs *)

(** C9: on the empty sequence of records [extract_group_metadata] does not
    return a pair of empty lists: [zip] of nothing yields nothing, the
    unpacking into [record_tup, group_tup] fails and the call raises
    [ValueError], whatever the two keys. *)
Theorem extract_group_metadata_empty {set_order : SetOrder} (data_key metadata_key : string) :
  extract_group_metadata data_key metadata_key [] = Raise ValueError.
Proof. reflexivity. Qed.

(** C1, at the input [[{'data': {'a': 1}}]], a single row without group
    metadata: [_get_record_pieces] accepts the row, defaults its [group_id]
    to [None] and puts [None] in the place of its group metadata; and
    [extract_group_metadata] then raises [TypeError] instead of returning the
    row with an empty group table, the [None] being serialised, loaded back
    and handed to the sort key [x['group_id']]. *)
Theorem extract_group_metadata_ungrouped_raises {set_order : SetOrder} :
  _get_record_pieces "data" "metadata" ungrouped_record
  = Ok ([("data", VDict [("a", VInt 1)]); ("metadata", VDict [("group_id", VNone)])],
        VNone)
  /\ extract_group_metadata "data" "metadata" [ungrouped_record] = Raise TypeError.
Proof.
  split; [reflexivity |].
  unfold extract_group_metadata. cbn [mapM]. 
  change (_get_record_pieces "data" "metadata" ungrouped_record)
    with (Ok ([("data", VDict [("a", VInt 1)]);
               ("metadata", VDict [("group_id", VNone)])], VNone)).
  cbn [bind unzip_pairs map fst snd].
  rewrite (set_list_singleton (dumps VNone)).
  - reflexivity.
  - discriminate.
  - intros y [<- | []]. reflexivity.
Qed.

(** More generally the extractor never returns when one of the records has
    no group metadata, or an empty one. *)
Lemma extract_group_metadata_needs_groups {set_order : SetOrder}
  (data_key metadata_key : string) (records : list dict) (record out : dict) :
  In record records ->
  _get_record_pieces data_key metadata_key record = Ok (out, VNone) ->
  forall result, extract_group_metadata data_key metadata_key records <> Ok result.
Proof.
  intros Hin Hrec [rows table] E.
  apply extract_group_metadata_inv in E.
  destruct E as (pieces & blobs & Hpieces & _ & _ & Hblobs & Hsorted).
  destruct (mapM_Ok_In _ _ _ _ Hpieces Hin) as (p & Hp & Hp').
  rewrite Hrec in Hp. injection Hp as <-.
  assert (Htext : In (dumps VNone) (set_list (map dumps (map snd pieces)))).
  { apply set_list_In, in_map. apply (in_map snd) in Hp'. exact Hp'. }
  destruct (mapM_Ok_In _ _ _ _ Hblobs Htext) as (v & Hv & Hv').
  change (loads (dumps VNone)) with (Ok VNone) in Hv. injection Hv as <-.
  unfold sorted in Hsorted. apply bind_Ok_inv in Hsorted.
  destruct Hsorted as (keyed & Hkeyed & _).
  destruct (mapM_Ok_In _ _ _ _ Hkeyed Hv') as (k & Hk & _).
  discriminate Hk.
Qed.

(** *** Rows *)

Lemma _get_record_pieces_row_of (data_key metadata_key : string) (record out : dict)
  (group : value) :
  data_key <> metadata_key ->
  _get_record_pieces data_key metadata_key record = Ok (out, group) ->
  row_of data_key metadata_key record out.
Proof.
  intros Hne E. apply _get_record_pieces_inv in E.
  destruct E as (data & raw & existing & Hdata & Hraw & Hex & -> & _).
  exists data, raw, existing. repeat split; try assumption.
  - apply row_of_pairs; exact Hne.
  - rewrite dict_get_without, String.eqb_refl. reflexivity.
  - intros k Hk. apply String.eqb_neq in Hk. rewrite dict_get_without, Hk. reflexivity.
  - change (dict_or existing [(group_id_key, dict_get_default group_id_key raw VNone)])
      with (dict_set group_id_key (dict_get_default group_id_key raw VNone) existing).
    rewrite dict_get_set, String.eqb_refl. reflexivity.
  - intros k Hk. apply String.eqb_neq in Hk.
    change (dict_or existing [(group_id_key, dict_get_default group_id_key raw VNone)])
      with (dict_set group_id_key (dict_get_default group_id_key raw VNone) existing).
    rewrite dict_get_set, Hk. reflexivity.
Qed.

(** C4: whenever [extract_group_metadata] returns, its rows match the
    records one to one and in order, each row holding the record's data
    section without the reserved field and the record's metadata section
    merged with [{group_id: raw group metadata's group_id}], so that
    [group_id] is overwritten and every other key kept; and it does return
    on a non-empty sequence of records that all carry group metadata. The
    two sections are taken to lie under different keys, as they do by
    default. *)
Theorem extract_group_metadata_rows {set_order : SetOrder}
  (data_key metadata_key : string) (records : list dict) :
  data_key <> metadata_key ->
  (forall rows table,
      extract_group_metadata data_key metadata_key records = Ok (rows, table) ->
      Forall2 (row_of data_key metadata_key) records rows)
  /\ (records <> [] ->
      Forall (fun r => has_group_metadata data_key metadata_key r = true) records ->
      exists rows table,
        extract_group_metadata data_key metadata_key records = Ok (rows, table)).
Proof.
  intros Hne. split.
  - intros rows table E. apply extract_group_metadata_inv in E.
    destruct E as (pieces & blobs & Hpieces & _ & -> & _).
    apply mapM_Ok_Forall2 in Hpieces.
    induction Hpieces as [| r [out g] rest pieces Hr _ IH]; simpl; constructor.
    + exact (_get_record_pieces_row_of _ _ _ _ _ Hne Hr).
    + exact IH.
  - intros Hrecords Hall.
    destruct (extract_group_metadata_table data_key metadata_key records Hrecords Hall)
      as (rows & table & E & _).
    exists rows, table. exact E.
Qed.

Lemma example_extract :
  extract_group_metadata "data" "metadata" example_records
  = Ok ([clean_record 2 "y" (VInt 2); clean_record 1 "x" (VInt 1);
         clean_record 1 "x" (VInt 1)],
        [group_1; group_2]).
Proof. vm_compute. reflexivity. Qed.

Lemma extract_group_metadata_rows_witness :
  Forall2 (row_of "data" "metadata") example_records
    [clean_record 2 "y" (VInt 2); clean_record 1 "x" (VInt 1); clean_record 1 "x" (VInt 1)].
Proof.
  refine (proj1 (extract_group_metadata_rows "data" "metadata" example_records _)
            _ [group_1; group_2] _).
  - discriminate.
  - vm_compute. reflexivity.
Defined.

(** *** Running the extractor on its own rows *)

Lemma _get_record_pieces_clean (data_key metadata_key : string) (data metadata : dict) :
  data_key <> metadata_key ->
  dict_without MATHESAR_GROUP_METADATA data = data ->
  _get_record_pieces data_key metadata_key
    [(data_key, VDict data); (metadata_key, VDict metadata)]
  = Ok (reset_row data_key metadata_key data metadata, VNone).
Proof.
  intros Hne Hclean. pose proof Hne as Hneb. apply String.eqb_neq in Hneb.
  rewrite (_get_record_pieces_Ok data_key metadata_key _ data [] metadata).
  - rewrite Hclean, row_of_pairs by exact Hne. reflexivity.
  - simpl. rewrite String.eqb_refl. reflexivity.
  - unfold dict_get_default. rewrite <- Hclean, dict_get_without, String.eqb_refl.
    reflexivity.
  - unfold dict_get_default. simpl. rewrite String.eqb_sym, Hneb, String.eqb_refl.
    reflexivity.
Qed.

(** C2, as the code has it: applied to a row it has produced (the two
    sections under different keys), the extractor's step on one record,
    [_get_record_pieces], finds no group metadata, leaves the data section as
    it is and keeps the metadata section but for [group_id], which it resets
    to [None]; applied once more it changes nothing. *)
Theorem get_record_pieces_again (data_key metadata_key : string) (record out : dict)
  (group : value) :
  data_key <> metadata_key ->
  _get_record_pieces data_key metadata_key record = Ok (out, group) ->
  exists data metadata,
    out = [(data_key, VDict data); (metadata_key, VDict metadata)]
    /\ _get_record_pieces data_key metadata_key out
       = Ok (reset_row data_key metadata_key data metadata, VNone)
    /\ _get_record_pieces data_key metadata_key
         (reset_row data_key metadata_key data metadata)
       = Ok (reset_row data_key metadata_key data metadata, VNone).
Proof.
  intros Hne E. apply _get_record_pieces_inv in E.
  destruct E as (data & raw & existing & _ & _ & _ & -> & _).
  rewrite row_of_pairs by exact Hne.
  eexists; eexists. split; [reflexivity |].
  split.
  - apply _get_record_pieces_clean; [exact Hne | apply dict_without_idem].
  - unfold reset_row at 1.
    rewrite _get_record_pieces_clean; [| exact Hne | apply dict_without_idem].
    unfold reset_row. rewrite dict_set_set. reflexivity.
Qed.

Lemma get_record_pieces_again_witness :
  _get_record_pieces "data" "metadata" (clean_record 1 "x" (VInt 1))
  = Ok (clean_record 1 "x" VNone, VNone)
  /\ _get_record_pieces "data" "metadata" (clean_record 1 "x" VNone)
     = Ok (clean_record 1 "x" VNone, VNone).
Proof.
  destruct (get_record_pieces_again "data" "metadata" (grouped_record 1 "x" group_1)
              (clean_record 1 "x" (VInt 1)) group_1)
    as (data & metadata & Hout & Honce & Htwice).
  - discriminate.
  - reflexivity.
  - injection Hout as <- <-. split; [exact Honce | exact Htwice].
Defined.

(** The extractor accepts the example records and fails on the rows it
    returned for them; and the rows it would have to return are not the rows
    it was given, their [group_id] being reset. *)
Lemma extract_group_metadata_not_idempotent :
  exists rows table,
    extract_group_metadata "data" "metadata" example_records = Ok (rows, table)
    /\ extract_group_metadata "data" "metadata" rows = Raise TypeError
    /\ extract_group_metadata "data" "metadata" rows <> Ok (rows, [])
    /\ mapM (_get_record_pieces "data" "metadata") rows
       = Ok (map (fun r => (r, VNone))
               [clean_record 2 "y" VNone; clean_record 1 "x" VNone;
                clean_record 1 "x" VNone])
    /\ rows <> [clean_record 2 "y" VNone; clean_record 1 "x" VNone;
                clean_record 1 "x" VNone].
Proof.
  eexists; eexists. split; [apply example_extract |].
  split; [vm_compute; reflexivity |].
  split; [vm_compute; discriminate |].
  split; [vm_compute; reflexivity | discriminate].
Qed.

(** *** Deduplication *)

(** C3, as the code has it: on a non-empty sequence of records that all
    carry group metadata the extractor returns a table without repetition
    whose entries are exactly the raw group metadata objects of the records;
    what is compared is the text [json.dumps] writes, and two of these
    objects have the same text only when they are the same object, key for
    key in the same order; the table ascends by [group_id]; and for any other
    order of the records the table has the same entries and ascends as well.
    This holds for every iteration order of the set. *)
Theorem extract_group_metadata_deduplicates {set_order : SetOrder}
  (data_key metadata_key : string) (records : list dict) :
  records <> [] ->
  Forall (fun r => has_group_metadata data_key metadata_key r = true) records ->
  exists rows table,
    extract_group_metadata data_key metadata_key records = Ok (rows, table)
    /\ NoDup table
    /\ (forall g,
          In g table <-> exists r, In r records /\ raw_group_metadata data_key r = g)
    /\ (forall r r',
          In r records -> In r' records ->
          dumps (raw_group_metadata data_key r) = dumps (raw_group_metadata data_key r') ->
          raw_group_metadata data_key r = raw_group_metadata data_key r')
    /\ StronglySorted (ascend_by group_id_of) table
    /\ forall records',
        Permutation records records' ->
        exists rows' table',
          extract_group_metadata data_key metadata_key records' = Ok (rows', table')
          /\ Permutation table table'
          /\ StronglySorted (ascend_by group_id_of) table'.
Proof.
  intros Hne Hall.
  destruct (extract_group_metadata_table data_key metadata_key records Hne Hall)
    as (rows & table & E & Hnodup & Hin & Hsorted).
  exists rows, table. split; [exact E |]. split; [exact Hnodup |].
  split; [| split; [| split; [exact Hsorted |]]].
  - intros g. rewrite Hin, in_map_iff. split; intros (r & H1 & H2); exists r; tauto.
  - intros r r' Hr Hr'. rewrite Forall_forall in Hall.
    destruct (has_group_metadata_pieces _ _ _ (Hall r Hr)) as (_ & raw & _ & _ & -> & Hwf & _).
    destruct (has_group_metadata_pieces _ _ _ (Hall r' Hr'))
      as (_ & raw' & _ & _ & -> & Hwf' & _).
    apply dumps_inj; assumption.
  - intros records' Hperm.
    destruct (extract_group_metadata_table data_key metadata_key records')
      as (rows' & table' & E' & Hnodup' & Hin' & Hsorted').
    + intros ->. apply Permutation_sym, Permutation_nil in Hperm. contradiction.
    + exact (Permutation_Forall Hperm Hall).
    + exists rows', table'. split; [exact E' |]. split; [| exact Hsorted'].
      apply NoDup_Permutation; [exact Hnodup | exact Hnodup' |].
      intros g. rewrite Hin, Hin'. split; apply Permutation_in; apply Permutation_map;
        [| apply Permutation_sym]; exact Hperm.
Qed.

Lemma extract_group_metadata_deduplicates_witness :
  exists rows table,
    extract_group_metadata "data" "metadata" example_records = Ok (rows, table)
    /\ NoDup table
    /\ StronglySorted (ascend_by group_id_of) table.
Proof.
  destruct (extract_group_metadata_deduplicates "data" "metadata" example_records)
    as (rows & table & E & Hnodup & _ & _ & Hsorted & _).
  - discriminate.
  - repeat (apply Forall_cons; [reflexivity |]). apply Forall_nil.
  - exists rows, table. split; [exact E |]. split; [exact Hnodup | exact Hsorted].
Defined.

(** Two rows of one group whose metadata objects list their keys in different
    orders leave two entries in the table, though the two are equal as Python
    compares dicts. *)
Lemma extract_group_metadata_key_order :
  extract_group_metadata "data" "metadata"
    [grouped_record 1 "x" group_1; grouped_record 1 "x" group_1_reordered]
  = Ok ([clean_record 1 "x" (VInt 1); clean_record 1 "x" (VInt 1)],
        [group_1; group_1_reordered])
  /\ py_eq group_1 group_1_reordered = true.
Proof. split; vm_compute; reflexivity. Qed.

(* ================================================================== *)
(** * Further properties *)

(** ** Requests *)

(** X1: in distinct mode [num_groups] is never looked at: validation,
    resolution and the query built are the same whatever it holds, a float or
    [None] included. *)
Theorem distinct_mode_ignores_num_groups (table : Table) (cols n n' : pyobj) :
  validate (mkGroupBy cols "distinct" n) = validate (mkGroupBy cols "distinct" n')
  /\ get_validated_group_by_columns (mkGroupBy cols "distinct" n) table
     = get_validated_group_by_columns (mkGroupBy cols "distinct" n') table
  /\ get_group_augmented_records_query table (mkGroupBy cols "distinct" n)
     = get_group_augmented_records_query table (mkGroupBy cols "distinct" n').
Proof.
  assert (Hval : validate (mkGroupBy cols "distinct" n)
                 = validate (mkGroupBy cols "distinct" n')) by reflexivity.
  assert (Hres : get_validated_group_by_columns (mkGroupBy cols "distinct" n) table
                 = get_validated_group_by_columns (mkGroupBy cols "distinct" n') table).
  { unfold get_validated_group_by_columns. rewrite Hval. reflexivity. }
  split; [exact Hval |]. split; [exact Hres |].
  unfold get_group_augmented_records_query. rewrite Hres. reflexivity.
Qed.

Lemma filter_none {A : Type} (l : list A) : filter (fun _ => false) l = [].
Proof. induction l as [| x l IH]; [reflexivity | exact IH]. Qed.

(** X2: an empty [column_list] is accepted: [validate] passes, resolution
    returns no column for any table, and every query returned has the
    metadata expression of no grouping column, over a window ordered by
    nothing. A query is returned in distinct mode, and in percentile mode for
    every table that has no column named [cume_dist] or [range_id]. *)
Theorem empty_column_list_accepted (table : Table) (cols : pyobj) (mode : string)
  (n : pyobj) :
  cols = PList [] \/ cols = PTuple [] ->
  recognised_mode mode ->
  (mode = "percentile" -> exactly_int n) ->
  validate (mkGroupBy cols mode n) = Ok tt
  /\ get_validated_group_by_columns (mkGroupBy cols mode n) table = Ok []
  /\ (forall q,
        get_group_augmented_records_query table (mkGroupBy cols mode n) = Ok q ->
        exists partition group_id,
          query_metadata q
          = _get_group_metadata_definition
              (GroupingWindowDefinition_init partition []) [] group_id)
  /\ (mode = "distinct" \/ reserved_free table ->
      exists q, get_group_augmented_records_query table (mkGroupBy cols mode n) = Ok q).
Proof.
  intros Hcols Hmode Hint.
  assert (Hval : validate (mkGroupBy cols mode n) = Ok tt).
  { rewrite (validate_checks (mkGroupBy cols mode n) []); auto. }
  assert (Hres : get_validated_group_by_columns (mkGroupBy cols mode n) table = Ok []).
  { unfold get_validated_group_by_columns. rewrite Hval.
    destruct Hcols as [-> | ->]; reflexivity. }
  split; [exact Hval |]. split; [exact Hres |].
  unfold get_group_augmented_records_query. rewrite Hres. cbn [bind group_mode num_groups].
  destruct Hmode as [-> | ->].
  - split.
    + intros q E. cbn in E. injection E as <-. eexists. eexists. reflexivity.
    + intros _. eexists. reflexivity.
  - destruct (Hint eq_refl) as (z & ->). cbn [String.eqb Ascii.eqb Bool.eqb GroupMode_value].
    split.
    + intros q E. unfold _get_percentile_range_group_select in E.
      cbn [as_range_argument bind] in E.
      apply bind_Ok_inv in E. destruct E as (cume_dist_columns & _ & E).
      apply bind_Ok_inv in E. destruct E as (ranges & _ & E).
      apply bind_Ok_inv in E. destruct E as (ranges_columns & _ & E).
      apply bind_Ok_inv in E. destruct E as (range_id & _ & E).
      injection E as <-. cbn [query_metadata map existsb]. rewrite filter_none.
      eexists. eexists. reflexivity.
    + intros [Hd | Hfree]; [discriminate Hd |]. apply percentile_select_Ok. exact Hfree.
Qed.

Lemma empty_column_list_accepted_witness :
  get_validated_group_by_columns (mkGroupBy (PTuple []) "percentile" (PInt 3)) example_table
  = Ok [].
Proof.
  refine (proj1 (proj2 (empty_column_list_accepted example_table (PTuple []) "percentile" (PInt 3)
                          _ _ _))).
  - right; reflexivity.
  - right; reflexivity.
  - intros _; exists 3; reflexivity.
Defined.

(** ** What the outcome of resolution tells *)








(** ** More on the percentile buckets *)

Lemma buckets_In (n : Z) (e : sqlexpr) (k : Z) :
  In (e, k) (map (bucket n) (py_range n)) <->
  0 <= k - 1 < n
  /\ e = and_ (CumeDistGt (bound (k - 1) n)) (CumeDistLe (bound k n)).
Proof.
  rewrite in_map_iff. split.
  - intros (i & Hi & Hin). apply py_range_In in Hin. unfold bucket in Hi.
    injection Hi as <- <-. rewrite Z.add_simpl_r. split; [exact Hin | reflexivity].
  - intros [Hk ->]. exists (k - 1). split; [| apply py_range_In; exact Hk].
    unfold bucket. rewrite Z.sub_add. reflexivity.
Qed.

Lemma bucket_bounds (n : Z) (e : sqlexpr) (k : Z) (c : Q) :
  In (e, k) (map (bucket n) (py_range n)) -> eval_sqlexpr e c = true ->
  0 <= k - 1 < n /\ (bound (k - 1) n < c)%Q /\ (c <= bound k n)%Q.
Proof.
  intros Hin He. apply buckets_In in Hin. destruct Hin as [Hk ->].
  split; [exact Hk |]. apply eval_interval. exact He.
Qed.

Lemma percentile_ranges_Ok_inv (n : Z) (ranges : list (sqlexpr * Z)) :
  percentile_ranges n = Ok ranges -> ranges = map (bucket n) (py_range n).
Proof.
  rewrite percentile_ranges_buckets. intros E. injection E as <-. reflexivity.
Qed.

(** X5: for a positive [num_groups] the conditions of the case analysis
    exclude one another, so the order of its branches does not matter: a
    cumulative distribution gets the label [k] exactly when the condition of
    a branch labelled [k] holds of it. *)
Theorem percentile_branches_exclusive (n : Z) (c : Q) (ranges : list (sqlexpr * Z)) :
  0 < n ->
  percentile_ranges n = Ok ranges ->
  (forall e k e' k',
      In (e, k) ranges -> In (e', k') ranges ->
      eval_sqlexpr e c = true -> eval_sqlexpr e' c = true -> k = k')
  /\ (forall k,
        eval_case ranges c = CaseValue k
        <-> exists e, In (e, k) ranges /\ eval_sqlexpr e c = true).
Proof.
  intros Hn Hranges. apply percentile_ranges_Ok_inv in Hranges. subst ranges.
  assert (Hexcl : forall e k e' k',
             In (e, k) (map (bucket n) (py_range n)) ->
             In (e', k') (map (bucket n) (py_range n)) ->
             eval_sqlexpr e c = true -> eval_sqlexpr e' c = true -> k = k').
  { intros e k e' k' Hin Hin' He He'.
    destruct (bucket_bounds n e k c Hin He) as (Hk & Hlo & Hhi).
    destruct (bucket_bounds n e' k' c Hin' He') as (Hk' & Hlo' & Hhi').
    pose proof (bound_lt_inv n (k - 1) k' Hn ltac:(lia) (Qlt_le_trans _ _ _ Hlo Hhi')).
    pose proof (bound_lt_inv n (k' - 1) k Hn ltac:(lia) (Qlt_le_trans _ _ _ Hlo' Hhi)).
    lia. }
  split; [exact Hexcl |].
  intros k. rewrite eval_case_value. split.
  - intros Hk.
    destruct (first_branch_Some_inv n c _ k Hk) as (i & Hi & -> & Hlo & Hhi).
    exists (and_ (CumeDistGt (bound i n)) (CumeDistLe (bound (i + 1) n))). split.
    + apply in_map_iff. exists i. split; [reflexivity | exact Hi].
    + apply eval_interval. split; assumption.
  - intros (e & Hin & He).
    assert (Hall : forall e' k', In (e', k') (map (bucket n) (py_range n)) ->
                                 eval_sqlexpr e' c = true -> k' = k).
    { intros e' k' Hin' He'. exact (Hexcl e' k' e k Hin' Hin He' He). }
    clear Hexcl. induction (map (bucket n) (py_range n)) as [| [e0 k0] l IH]; [destruct Hin |].
    rewrite first_branch_cons. destruct (eval_sqlexpr e0 c) eqn:E0.
    + f_equal. exact (Hall e0 k0 (or_introl eq_refl) E0).
    + destruct Hin as [Heq | Hin].
      * injection Heq as -> ->. rewrite He in E0. discriminate E0.
      * apply IH; [exact Hin |]. intros e' k' Hin'. apply Hall. right; exact Hin'.
Qed.

Lemma percentile_branches_exclusive_witness :
  exists ranges,
    percentile_ranges 4 = Ok ranges /\ eval_case ranges (3 # 8) = CaseValue 2.
Proof.
  eexists. split; [reflexivity |].
  apply (proj2 (percentile_branches_exclusive 4 (3 # 8) _ eq_refl eq_refl)).
  exists (and_ (CumeDistGt (1 # 4)) (CumeDistLe (1 # 2))).
  split; [right; left; reflexivity | reflexivity].
Defined.

(** X6: for a positive [num_groups] the case analysis gives no bucket (SQL
    NULL) exactly to the values outside (0, 1]. *)
Theorem percentile_bucket_null (n : Z) (c : Q) (ranges : list (sqlexpr * Z)) :
  0 < n ->
  percentile_ranges n = Ok ranges ->
  eval_case ranges c = CaseNull <-> ~ ((0 < c)%Q /\ (c <= 1)%Q).
Proof.
  intros Hn Hranges. apply percentile_ranges_Ok_inv in Hranges. subst ranges. split.
  - intros Hnull [Hpos Hle].
    destruct (buckets_cover n c Hn Hpos Hle) as (k & Hk & _).
    rewrite Hk in Hnull. discriminate Hnull.
  - intros Hout.
    destruct (eval_case (map (bucket n) (py_range n)) c) as [| | k] eqn:Hk.
    + exfalso. apply (buckets_not_empty n Hn).
      destruct (map (bucket n) (py_range n)) as [| w rest]; [reflexivity |].
      unfold eval_case in Hk. destruct (first_branch (w :: rest) c); discriminate Hk.
    + reflexivity.
    + exfalso. apply Hout.
      destruct (buckets_value_inv n c k Hk) as (Hrange & Hlo & Hhi). split.
      * apply Qle_lt_trans with (bound (k - 1) n); [| exact Hlo].
        apply (bound_unit n (k - 1) Hn). lia.
      * apply Qle_trans with (bound k n); [exact Hhi |].
        apply (bound_unit n k Hn). lia.
Qed.

Lemma percentile_bucket_null_witness :
  exists ranges,
    percentile_ranges 4 = Ok ranges /\ eval_case ranges (5 # 4) = CaseNull.
Proof.
  eexists. split; [reflexivity |].
  apply (proj2 (percentile_bucket_null 4 (5 # 4) _ eq_refl eq_refl)).
  intros [_ H]. unfold Qle in H. simpl in H. lia.
Defined.

(** ** Errors of the extractor *)

Lemma not_is_dict (v : value) :
  ~ is_dict v -> match v with VDict _ => False | _ => True end.
Proof. intros H. destruct v; try exact I. apply H. eexists; reflexivity. Qed.

(** X10: the step on one record raises [KeyError] when the record has no
    data section, [AttributeError] when the data section is not a dict or
    holds under the reserved field something that is not a dict ([None]
    included), [TypeError] when the record's metadata section is not a dict;
    and it raises nothing else. *)
Theorem get_record_pieces_errors (data_key metadata_key : string) (record : dict) :
  (dict_get data_key record = None ->
   _get_record_pieces data_key metadata_key record = Raise (KeyError data_key))
  /\ (forall v,
        dict_get data_key record = Some v -> ~ is_dict v ->
        _get_record_pieces data_key metadata_key record = Raise AttributeError)
  /\ (forall data g,
        dict_get data_key record = Some (VDict data) ->
        dict_get MATHESAR_GROUP_METADATA data = Some g -> ~ is_dict g ->
        _get_record_pieces data_key metadata_key record = Raise AttributeError)
  /\ (forall data m,
        dict_get data_key record = Some (VDict data) ->
        is_dict (dict_get_default MATHESAR_GROUP_METADATA data (VDict [])) ->
        dict_get metadata_key record = Some m -> ~ is_dict m ->
        _get_record_pieces data_key metadata_key record = Raise TypeError)
  /\ (forall e,
        _get_record_pieces data_key metadata_key record = Raise e ->
        e = KeyError data_key \/ e = AttributeError \/ e = TypeError).
Proof.
  unfold _get_record_pieces, subscript.
  split; [| split; [| split; [| split]]].
  - intros ->. reflexivity.
  - intros v -> Hv. apply not_is_dict in Hv. destruct v; try reflexivity. destruct Hv.
  - intros data g -> Hg Hnot. cbn [bind dict_items]. unfold dict_get_default at 1.
    rewrite Hg. apply not_is_dict in Hnot. destruct g; try reflexivity. destruct Hnot.
  - intros data m -> (raw & Hraw) Hm Hnot. cbn [bind dict_items]. rewrite Hraw.
    cbn [bind dict_items]. unfold dict_get_default at 1. rewrite Hm.
    apply not_is_dict in Hnot. destruct m; try reflexivity. destruct Hnot.
  - intros e E.
    destruct (dict_get data_key record) as [section |];
      [| injection E as <-; left; reflexivity].
    cbn [bind] in E.
    destruct section as [| | | | | data];
      try (injection E as <-; right; left; reflexivity).
    cbn [bind dict_items] in E.
    destruct (dict_get_default MATHESAR_GROUP_METADATA data (VDict []))
      as [| | | | | raw];
      try (injection E as <-; right; left; reflexivity).
    cbn [bind dict_items] in E.
    destruct (dict_get_default metadata_key record (VDict [])) as [| | | | | existing];
      try (injection E as <-; right; right; reflexivity).
    discriminate E.
Qed.

Lemma get_record_pieces_errors_witness :
  _get_record_pieces "data" "metadata"
    [("data", VDict [("a", VInt 1); (MATHESAR_GROUP_METADATA, VNone)])]
  = Raise AttributeError.
Proof.
  refine (proj1 (proj2 (proj2 (get_record_pieces_errors "data" "metadata"
             [("data", VDict [("a", VInt 1); (MATHESAR_GROUP_METADATA, VNone)])])))
            [("a", VInt 1); (MATHESAR_GROUP_METADATA, VNone)] VNone eq_refl eq_refl _).
  intros (items & H). discriminate H.
Defined.

Lemma mapM_app_Raise {A B : Type} (f : A -> result B) (before after : list A) (x : A)
  (e : exn) :
  Forall (fun a => exists b, f a = Ok b) before -> f x = Raise e ->
  mapM f (before ++ x :: after) = Raise e.
Proof.
  intros Hbefore Hx. induction Hbefore as [| a rest (b & Hb) _ IH]; simpl.
  - rewrite Hx. reflexivity.
  - rewrite Hb, IH. reflexivity.
Qed.

(** X11: the records are split one after the other before anything else is
    done, so the call raises what the first record that cannot be split
    raises, whatever comes after it. *)
Theorem extract_group_metadata_first_error {set_order : SetOrder}
  (data_key metadata_key : string) (before after : list dict) (record : dict) (e : exn) :
  Forall (fun r => exists p, _get_record_pieces data_key metadata_key r = Ok p) before ->
  _get_record_pieces data_key metadata_key record = Raise e ->
  extract_group_metadata data_key metadata_key (before ++ record :: after) = Raise e.
Proof.
  intros Hbefore Hrecord. unfold extract_group_metadata.
  rewrite (mapM_app_Raise _ before after record e Hbefore Hrecord). reflexivity.
Qed.

Lemma extract_group_metadata_first_error_witness :
  extract_group_metadata "data" "metadata"
    ([grouped_record 1 "x" group_1]
     ++ [("metadata", VDict [])] :: [grouped_record 2 "y" group_2])
  = Raise (KeyError "data").
Proof.
  apply extract_group_metadata_first_error.
  - apply Forall_cons; [eexists; reflexivity | apply Forall_nil].
  - reflexivity.
Defined.

(** X12: the call returns only for a non-empty sequence of records each of
    which carries, under the reserved field of its data section, a non-empty
    dict that has a [group_id]. *)
Theorem extract_group_metadata_returns_only_grouped {set_order : SetOrder}
  (data_key metadata_key : string) (records rows : list dict) (table : list value) :
  (forall r, In r records -> well_formed (raw_group_metadata data_key r) = true) ->
  extract_group_metadata data_key metadata_key records = Ok (rows, table) ->
  records <> []
  /\ forall r,
      In r records ->
      exists raw group_id,
        raw_group_metadata data_key r = VDict raw
        /\ raw <> []
        /\ dict_get group_id_key raw = Some group_id.
Proof.
  intros Hwf E. pose proof E as E'. apply extract_group_metadata_inv in E'.
  destruct E' as (pieces & groups & Hpieces & Hne & _ & Hloads & Hsorted).
  split; [exact Hne |]. intros r Hr.
  destruct (mapM_Ok_In _ _ _ _ Hpieces Hr) as ([out g] & Hp & Hin).
  pose proof Hp as Hinv. apply _get_record_pieces_inv in Hinv.
  destruct Hinv as (data & raw & existing & Hdata & Hraw & _ & _ & Hg).
  assert (Hrawr : raw_group_metadata data_key r = VDict raw).
  { unfold raw_group_metadata. rewrite Hdata. exact Hraw. }
  destruct raw as [| kv raw].
  - exfalso. cbn in Hg. subst g.
    exact (extract_group_metadata_needs_groups _ _ _ _ _ Hr Hp _ E).
  - cbn in Hg. subst g.
    assert (Htext : In (dumps (VDict (kv :: raw))) (set_list (map dumps (map snd pieces)))).
    { apply set_list_In, in_map. apply (in_map snd) in Hin. exact Hin. }
    destruct (mapM_Ok_In _ _ _ _ Hloads Htext) as (v & Hv & Hv').
    rewrite loads_dumps in Hv by (rewrite <- Hrawr; apply Hwf; exact Hr).
    injection Hv as <-.
    unfold sorted in Hsorted. apply bind_Ok_inv in Hsorted.
    destruct Hsorted as (keyed & Hkeyed & _).
    destruct (mapM_Ok_In _ _ _ _ Hkeyed Hv') as (k & Hk & _).
    unfold group_id_of, subscript in Hk.
    destruct (dict_get group_id_key (kv :: raw)) as [gid |] eqn:Hgid; [| discriminate Hk].
    exists (kv :: raw), gid. split; [exact Hrawr |]. split; [discriminate | exact Hgid].
Qed.

Lemma extract_group_metadata_returns_only_grouped_witness :
  example_records <> []
  /\ forall r,
      In r example_records ->
      exists raw group_id,
        raw_group_metadata "data" r = VDict raw
        /\ raw <> []
        /\ dict_get group_id_key raw = Some group_id.
Proof.
  refine (extract_group_metadata_returns_only_grouped "data" "metadata" example_records
            _ [group_1; group_2] _ _).
  - intros r [<- | [<- | [<- | []]]]; reflexivity.
  - vm_compute. reflexivity.
Defined.

(** ** Rows and table together *)

Lemma insert_sorted_Permutation {A : Type} (kx : value * A) (acc acc' : list (value * A)) :
  insert_sorted kx acc = Ok acc' -> Permutation (kx :: acc) acc'.
Proof.
  revert acc'. induction acc as [| ky rest IH]; simpl; intros acc' E.
  - injection E as <-. apply Permutation_refl.
  - apply bind_Ok_inv in E. destruct E as ([] & _ & E).
    + injection E as <-. apply Permutation_refl.
    + apply bind_Ok_inv in E. destruct E as (rest' & Hrest & E). injection E as <-.
      apply Permutation_trans with (ky :: kx :: rest);
        [apply perm_swap | apply perm_skip, IH; exact Hrest].
Qed.

Lemma sort_into_Permutation {A : Type} (todo acc out : list (value * A)) :
  sort_into acc todo = Ok out -> Permutation (acc ++ todo) out.
Proof.
  revert acc. induction todo as [| kx todo IH]; simpl; intros acc E.
  - injection E as <-. rewrite List.app_nil_r. apply Permutation_refl.
  - apply bind_Ok_inv in E. destruct E as (acc' & Hacc & E).
    apply Permutation_trans with (acc' ++ todo); [| apply IH; exact E].
    apply Permutation_trans with ((kx :: acc) ++ todo).
    + apply Permutation_sym, Permutation_middle.
    + apply Permutation_app_tail, insert_sorted_Permutation. exact Hacc.
Qed.

(** What [sorted] returns holds the items given, each as often. *)
Lemma sorted_Permutation {A : Type} (xs out : list A) (key : A -> result value) :
  sorted xs key = Ok out -> Permutation xs out.
Proof.
  unfold sorted. intros E.
  apply bind_Ok_inv in E. destruct E as (keyed & Hkeyed & E).
  apply bind_Ok_inv in E. destruct E as (out' & Hout & E). injection E as <-.
  apply sort_into_Permutation in Hout. cbn [app] in Hout.
  assert (Hsnd : map snd keyed = xs).
  { clear - Hkeyed. apply mapM_Ok_Forall2 in Hkeyed.
    induction Hkeyed as [| x kx xs keyed Hx _ IH]; simpl; [reflexivity |].
    apply bind_Ok_inv in Hx. destruct Hx as (k & _ & Hx). injection Hx as <-.
    simpl. rewrite IH. reflexivity. }
  rewrite <- Hsnd. apply Permutation_map. exact Hout.
Qed.

Lemma mapM_Ok_length {A B : Type} (f : A -> result B) (l : list A) (l' : list B) :
  mapM f l = Ok l' -> List.length l' = List.length l.
Proof.
  intros E. apply mapM_Ok_Forall2 in E. symmetry. exact (Forall2_length E).
Qed.

(** X14: when the call returns there are as many rows as records, and the
    group table has at least one entry and no more entries than there are
    records. *)
Theorem extract_group_metadata_sizes {set_order : SetOrder}
  (data_key metadata_key : string) (records rows : list dict) (table : list value) :
  extract_group_metadata data_key metadata_key records = Ok (rows, table) ->
  List.length rows = List.length records
  /\ (1 <= List.length table <= List.length records)%nat.
Proof.
  intros E. apply extract_group_metadata_inv in E.
  destruct E as (pieces & groups & Hpieces & Hne & -> & Hloads & Hsorted).
  pose proof (mapM_Ok_length _ _ _ Hpieces) as Hlen.
  rewrite length_map. split; [exact Hlen |].
  rewrite <- (Permutation_length (sorted_Permutation _ _ _ Hsorted)).
  rewrite (mapM_Ok_length _ _ _ Hloads).
  set (texts := map dumps (map snd pieces)) in *.
  assert (Htexts : List.length texts = List.length records).
  { unfold texts. rewrite !length_map. exact Hlen. }
  split.
  - destruct texts as [| t rest].
    + destruct records; [contradiction | discriminate Htexts].
    + assert (Hin : In t (set_list (t :: rest))) by (apply set_list_In; left; reflexivity).
      destruct (set_list (t :: rest)); [destruct Hin | simpl; lia].
  - rewrite <- Htexts. apply NoDup_incl_length; [apply set_list_NoDup |].
    intros s Hs. apply set_list_In. exact Hs.
Qed.

Lemma extract_group_metadata_sizes_witness :
  List.length [clean_record 2 "y" (VInt 2); clean_record 1 "x" (VInt 1);
               clean_record 1 "x" (VInt 1)]
  = List.length example_records
  /\ (1 <= List.length [group_1; group_2] <= List.length example_records)%nat.
Proof.
  refine (extract_group_metadata_sizes "data" "metadata" example_records _ _ _).
  vm_compute. reflexivity.
Defined.

Lemma Forall2_In_l {A B : Type} (R : A -> B -> Prop) (l : list A) (l' : list B) (x : A) :
  Forall2 R l l' -> In x l -> exists y, In y l' /\ R x y.
Proof.
  induction 1 as [| a b l l' Hab _ IH]; intros Hin; [destruct Hin |].
  destruct Hin as [-> | Hin].
  - exists b. split; [left; reflexivity | exact Hab].
  - destruct (IH Hin) as (y & Hy & Hxy). exists y. split; [right; exact Hy | exact Hxy].
Qed.

Lemma Forall2_In_r {A B : Type} (R : A -> B -> Prop) (l : list A) (l' : list B) (y : B) :
  Forall2 R l l' -> In y l' -> exists x, In x l /\ R x y.
Proof.
  induction 1 as [| a b l l' Hab _ IH]; intros Hin; [destruct Hin |].
  destruct Hin as [-> | Hin].
  - exists a. split; [left; reflexivity | exact Hab].
  - destruct (IH Hin) as (x & Hx & Hxy). exists x. split; [right; exact Hx | exact Hxy].
Qed.

(** The row of a record with group metadata refers to that metadata. *)
Lemma grouped_row_refers (data_key metadata_key : string) (record out : dict)
  (group : value) :
  data_key <> metadata_key ->
  has_group_metadata data_key metadata_key record = true ->
  _get_record_pieces data_key metadata_key record = Ok (out, group) ->
  exists z,
    row_group_id metadata_key out = Some (VInt z)
    /\ group_id_of (raw_group_metadata data_key record) = Ok (VInt z).
Proof.
  intros Hne Hgrouped Hp.
  destruct (has_group_metadata_pieces _ _ _ Hgrouped) as (_ & raw & z & _ & Hraw & _ & Hid).
  destruct (_get_record_pieces_row_of _ _ _ _ _ Hne Hp)
    as (data & raw' & existing & Hdata & Hraw' & _ & -> & _ & _ & Hgid & _).
  unfold raw_group_metadata in Hraw. rewrite Hdata, Hraw' in Hraw. injection Hraw as ->.
  exists z. split.
  - unfold row_group_id. apply String.eqb_neq in Hne. cbn [dict_get].
    rewrite (String.eqb_sym metadata_key data_key), Hne, String.eqb_refl, Hgid.
    unfold dict_get_default. rewrite Hid. reflexivity.
  - unfold raw_group_metadata. rewrite Hdata, Hraw'.
    unfold group_id_of, subscript. rewrite Hid. reflexivity.
Qed.

(** X13: for records that all carry group metadata (the two sections under
    different keys), every row returned refers by its [group_id] to an entry
    of the table returned, and every entry of the table is referred to by
    some row. *)
Theorem extract_group_metadata_linkage {set_order : SetOrder}
  (data_key metadata_key : string) (records rows : list dict) (table : list value) :
  data_key <> metadata_key ->
  Forall (fun r => has_group_metadata data_key metadata_key r = true) records ->
  extract_group_metadata data_key metadata_key records = Ok (rows, table) ->
  (forall row,
      In row rows ->
      exists g z,
        In g table
        /\ row_group_id metadata_key row = Some (VInt z)
        /\ group_id_of g = Ok (VInt z))
  /\ (forall g,
        In g table ->
        exists row z,
          In row rows
          /\ row_group_id metadata_key row = Some (VInt z)
          /\ group_id_of g = Ok (VInt z)).
Proof.
  intros Hne Hall E. pose proof E as E'. apply extract_group_metadata_inv in E'.
  destruct E' as (pieces & groups & Hpieces & Hrecords & Hrows & _).
  destruct (extract_group_metadata_table data_key metadata_key records Hrecords Hall)
    as (rows' & table' & E' & _ & Hin & _).
  rewrite E in E'. injection E' as <- <-.
  apply mapM_Ok_Forall2 in Hpieces. rewrite Forall_forall in Hall.
  split.
  - intros row Hrow. rewrite Hrows in Hrow. apply in_map_iff in Hrow.
    destruct Hrow as ([out g] & <- & Hp).
    destruct (Forall2_In_r _ _ _ _ Hpieces Hp) as (r & Hr & Hrp).
    destruct (grouped_row_refers _ _ _ _ _ Hne (Hall r Hr) Hrp) as (z & Hz & Hz').
    exists (raw_group_metadata data_key r), z.
    split; [apply Hin, in_map; exact Hr |]. split; assumption.
  - intros g Hg. apply Hin, in_map_iff in Hg. destruct Hg as (r & <- & Hr).
    destruct (Forall2_In_l _ _ _ _ Hpieces Hr) as ([out g] & Hp & Hrp).
    destruct (grouped_row_refers _ _ _ _ _ Hne (Hall r Hr) Hrp) as (z & Hz & Hz').
    exists out, z. split; [rewrite Hrows; apply (in_map fst) in Hp; exact Hp |].
    split; assumption.
Qed.

Lemma extract_group_metadata_linkage_witness :
  exists g z,
    In g [group_1; group_2]
    /\ row_group_id "metadata" (clean_record 2 "y" (VInt 2)) = Some (VInt z)
    /\ group_id_of g = Ok (VInt z).
Proof.
  refine (proj1 (extract_group_metadata_linkage "data" "metadata" example_records
                   [clean_record 2 "y" (VInt 2); clean_record 1 "x" (VInt 1);
                    clean_record 1 "x" (VInt 1)]
                   [group_1; group_2] _ _ _) _ _).
  - discriminate.
  - repeat (apply Forall_cons; [reflexivity |]). apply Forall_nil.
  - vm_compute. reflexivity.
  - left. reflexivity.
Defined.

(** ** The table as a list *)

Lemma strictly_sorted {A : Type} (key : A -> result value) (l : list A) :
  StronglySorted (ascend_by key) l -> NoDup l ->
  (forall a b, In a l -> In b l -> key a = key b -> a = b) ->
  StronglySorted (ascend_strictly_by key) l.
Proof.
  induction 1 as [| a l Hsorted IH Hall]; intros Hnodup Hinj; constructor.
  - apply IH; [inversion Hnodup; assumption |].
    intros x y Hx Hy. apply Hinj; right; assumption.
  - apply Forall_forall. intros b Hb. rewrite Forall_forall in Hall.
    destruct (Hall b Hb) as (x & y & Hx & Hy & Hle).
    exists x, y. split; [exact Hx |]. split; [exact Hy |].
    destruct (Z.eq_dec x y) as [-> | Hneq]; [| lia].
    exfalso. inversion Hnodup as [| ? ? Hnotin _]; subst. apply Hnotin.
    rewrite (Hinj a b (or_introl eq_refl) (or_intror Hb)); [exact Hb |].
    rewrite Hx, Hy. reflexivity.
Qed.

Lemma ascend_strictly_asym {A : Type} (key : A -> result value) (a b : A) :
  ascend_strictly_by key a b -> ascend_strictly_by key b a -> False.
Proof.
  intros (x & y & Hx & Hy & Hlt) (y' & x' & Hy' & Hx' & Hlt').
  rewrite Hx in Hx'. rewrite Hy in Hy'. injection Hx' as <-. injection Hy' as <-. lia.
Qed.

(** Two strictly ascending lists of the same items are the same list. *)
Lemma strictly_sorted_unique {A : Type} (key : A -> result value) (l l' : list A) :
  StronglySorted (ascend_strictly_by key) l ->
  StronglySorted (ascend_strictly_by key) l' ->
  (forall x, In x l <-> In x l') -> l = l'.
Proof.
  intros Hl. revert l'. induction Hl as [| a l Hsorted IH Hall]; intros l' Hl' Hsame.
  - destruct l' as [| b l']; [reflexivity |].
    destruct (proj2 (Hsame b) (or_introl eq_refl)).
  - destruct Hl' as [| b l' Hsorted' Hall'].
    + destruct (proj1 (Hsame a) (or_introl eq_refl)).
    + rewrite Forall_forall in Hall, Hall'.
      assert (Hab : a = b).
      { destruct (proj1 (Hsame a) (or_introl eq_refl)) as [Hba | Ha]; [symmetry; exact Hba |].
        destruct (proj2 (Hsame b) (or_introl eq_refl)) as [Heq | Hb]; [exact Heq |].
        exfalso. exact (ascend_strictly_asym key a b (Hall b Hb) (Hall' a Ha)). }
      subst b. f_equal. apply IH; [exact Hsorted' |].
      intros x. split; intros Hx.
      * destruct (proj1 (Hsame x) (or_intror Hx)) as [<- | Hx']; [| exact Hx'].
        exfalso. exact (ascend_strictly_asym key a a (Hall a Hx) (Hall a Hx)).
      * destruct (proj2 (Hsame x) (or_intror Hx)) as [<- | Hx']; [| exact Hx'].
        exfalso. exact (ascend_strictly_asym key a a (Hall' a Hx) (Hall' a Hx)).
Qed.

(** X15: when the records all carry group metadata and those with the same
    [group_id] carry the same metadata object, the table ascends strictly by
    [group_id], and it is the same list for every order of the records and
    every iteration order of the set. *)
Theorem extract_group_metadata_canonical (order order' : SetOrder)
  (data_key metadata_key : string) (records records' rows : list dict)
  (table : list value) :
  Forall (fun r => has_group_metadata data_key metadata_key r = true) records ->
  group_id_determines data_key records ->
  @extract_group_metadata order data_key metadata_key records = Ok (rows, table) ->
  Permutation records records' ->
  StronglySorted (ascend_strictly_by group_id_of) table
  /\ exists rows',
      @extract_group_metadata order' data_key metadata_key records' = Ok (rows', table).
Proof.
  intros Hall Hdet E Hperm.
  assert (Hne : records <> []).
  { apply extract_group_metadata_inv in E. destruct E as (_ & _ & _ & Hne & _). exact Hne. }
  assert (Hstrict : forall (o : SetOrder) rs rws tbl,
             Permutation records rs ->
             @extract_group_metadata o data_key metadata_key rs = Ok (rws, tbl) ->
             StronglySorted (ascend_strictly_by group_id_of) tbl
             /\ forall g, In g tbl <-> In g (map (raw_group_metadata data_key) records)).
  { intros o rs rws tbl Hp Ers.
    destruct (@extract_group_metadata_table o data_key metadata_key rs)
      as (rws' & tbl' & Ers' & Hnodup & Hin & Hsorted).
    - intros ->. apply Permutation_sym, Permutation_nil in Hp. contradiction.
    - exact (Permutation_Forall Hp Hall).
    - rewrite Ers in Ers'. injection Ers' as <- <-.
      assert (Hin' : forall g, In g tbl <-> In g (map (raw_group_metadata data_key) records)).
      { intros g. rewrite Hin. split; apply Permutation_in; apply Permutation_map;
          [apply Permutation_sym |]; exact Hp. }
      split; [| exact Hin'].
      apply strictly_sorted; [exact Hsorted | exact Hnodup |].
      intros a b Ha Hb Hkey. apply Hin', in_map_iff in Ha, Hb.
      destruct Ha as (r & <- & Hr). destruct Hb as (r' & <- & Hr').
      apply Hdet; assumption. }
  destruct (Hstrict order records rows table (Permutation_refl _) E) as [Hsorted Hin].
  split; [exact Hsorted |].
  destruct (@extract_group_metadata_table order' data_key metadata_key records')
    as (rows' & table' & E' & _).
  - intros ->. apply Permutation_sym, Permutation_nil in Hperm. contradiction.
  - exact (Permutation_Forall Hperm Hall).
  - exists rows'. rewrite E'. do 2 f_equal.
    destruct (Hstrict order' records' rows' table' Hperm E') as [Hsorted' Hin'].
    apply (strictly_sorted_unique group_id_of); [exact Hsorted' | exact Hsorted |].
    intros g. rewrite Hin, Hin'. reflexivity.
Qed.

Lemma extract_group_metadata_canonical_witness :
  StronglySorted (ascend_strictly_by group_id_of) [group_1; group_2]
  /\ exists rows',
      @extract_group_metadata reversed_order "data" "metadata" (rev example_records)
      = Ok (rows', [group_1; group_2]).
Proof.
  refine (extract_group_metadata_canonical last_seen_order reversed_order
            "data" "metadata" example_records (rev example_records)
            [clean_record 2 "y" (VInt 2); clean_record 1 "x" (VInt 1);
             clean_record 1 "x" (VInt 1)]
            [group_1; group_2] _ _ _ _).
  - repeat (apply Forall_cons; [reflexivity |]). apply Forall_nil.
  - intros r r' [<- | [<- | [<- | []]]] [<- | [<- | [<- | []]]] H;
      try reflexivity; vm_compute in H; discriminate H.
  - vm_compute. reflexivity.
  - apply Permutation_rev.
Defined.

Lemma mapM_app_Ok {A B : Type} (f : A -> result B) (l1 l2 : list A) (r1 r2 : list B) :
  mapM f l1 = Ok r1 -> mapM f l2 = Ok r2 -> mapM f (l1 ++ l2) = Ok (r1 ++ r2).
Proof.
  revert r1. induction l1 as [| x l1 IH]; simpl; intros r1 E1 E2.
  - injection E1 as <-. exact E2.
  - apply bind_Ok_inv in E1. destruct E1 as (y & Hy & E1).
    apply bind_Ok_inv in E1. destruct E1 as (ys & Hys & E1). injection E1 as <-.
    rewrite Hy. cbn [bind]. rewrite (IH ys Hys E2). reflexivity.
Qed.

(** X16: for two sequences of records that all carry group metadata, the
    rows of their concatenation are the rows of the first followed by the
    rows of the second, and its table holds what the two tables hold. *)
Theorem extract_group_metadata_app {set_order : SetOrder}
  (data_key metadata_key : string) (records records' rows rows' : list dict)
  (table table' : list value) :
  Forall (fun r => has_group_metadata data_key metadata_key r = true) records ->
  Forall (fun r => has_group_metadata data_key metadata_key r = true) records' ->
  extract_group_metadata data_key metadata_key records = Ok (rows, table) ->
  extract_group_metadata data_key metadata_key records' = Ok (rows', table') ->
  exists both,
    extract_group_metadata data_key metadata_key (records ++ records')
    = Ok (rows ++ rows', both)
    /\ forall g, In g both <-> In g table \/ In g table'.
Proof.
  intros Hall Hall' E E'.
  pose proof E as Einv. apply extract_group_metadata_inv in Einv.
  destruct Einv as (pieces & _ & Hpieces & Hne & -> & _).
  pose proof E' as Einv'. apply extract_group_metadata_inv in Einv'.
  destruct Einv' as (pieces' & _ & Hpieces' & Hne' & -> & _).
  destruct (extract_group_metadata_table data_key metadata_key records Hne Hall)
    as (r1 & t1 & E1 & _ & Hin1 & _).
  rewrite E in E1. injection E1 as <- <-.
  destruct (extract_group_metadata_table data_key metadata_key records' Hne' Hall')
    as (r2 & t2 & E2 & _ & Hin2 & _).
  rewrite E' in E2. injection E2 as <- <-.
  destruct (extract_group_metadata_table data_key metadata_key (records ++ records'))
    as (r3 & both & E3 & _ & Hin3 & _).
  - destruct records; [contradiction | discriminate].
  - apply Forall_app. split; assumption.
  - exists both. split.
    + pose proof E3 as Einv3. apply extract_group_metadata_inv in Einv3.
      destruct Einv3 as (pieces3 & _ & Hpieces3 & _ & -> & _).
      rewrite (mapM_app_Ok _ _ _ _ _ Hpieces Hpieces') in Hpieces3.
      injection Hpieces3 as <-. rewrite map_app in E3. exact E3.
    + intros g. rewrite Hin3, Hin1, Hin2, map_app, in_app_iff. reflexivity.
Qed.

Lemma extract_group_metadata_app_witness :
  exists both,
    extract_group_metadata "data" "metadata" (example_records ++ example_records)
    = Ok ([clean_record 2 "y" (VInt 2); clean_record 1 "x" (VInt 1);
           clean_record 1 "x" (VInt 1)]
          ++ [clean_record 2 "y" (VInt 2); clean_record 1 "x" (VInt 1);
              clean_record 1 "x" (VInt 1)], both)
    /\ forall g, In g both <-> In g [group_1; group_2] \/ In g [group_1; group_2].
Proof.
  apply extract_group_metadata_app.
  - repeat (apply Forall_cons; [reflexivity |]). apply Forall_nil.
  - repeat (apply Forall_cons; [reflexivity |]). apply Forall_nil.
  - vm_compute. reflexivity.
  - vm_compute. reflexivity.
Defined.

(** ** One key for both sections *)

(** X17: when the data and the metadata section are given the same key, the
    row returned has a single section, which is the record's data section as
    it was, the reserved field included, with [group_id] set in it. *)
Theorem get_record_pieces_same_key (key : string) (record out : dict) (group : value) :
  _get_record_pieces key key record = Ok (out, group) ->
  exists data raw,
    dict_get key record = Some (VDict data)
    /\ dict_get_default MATHESAR_GROUP_METADATA data (VDict []) = VDict raw
    /\ out = [(key,
               VDict (dict_set group_id_key (dict_get_default group_id_key raw VNone) data))]
    /\ forall section,
        dict_get key out = Some (VDict section) ->
        dict_get MATHESAR_GROUP_METADATA section = dict_get MATHESAR_GROUP_METADATA data.
Proof.
  intros E. apply _get_record_pieces_inv in E.
  destruct E as (data & raw & existing & Hdata & Hraw & Hex & -> & _).
  unfold dict_get_default in Hex. rewrite Hdata in Hex. injection Hex as <-.
  exists data, raw. split; [exact Hdata |]. split; [exact Hraw |].
  assert (Hout : dict_of_pairs
                   [(key, VDict (dict_without MATHESAR_GROUP_METADATA data));
                    (key, VDict (dict_set group_id_key
                                   (dict_get_default group_id_key raw VNone) data))]
                 = [(key, VDict (dict_set group_id_key
                                   (dict_get_default group_id_key raw VNone) data))]).
  { unfold dict_of_pairs. cbn [fold_left dict_set fst snd].
    rewrite String.eqb_refl. reflexivity. }
  rewrite Hout. split; [reflexivity |].
  intros section Hsection. cbn [dict_get] in Hsection. rewrite String.eqb_refl in Hsection.
  injection Hsection as <-. rewrite dict_get_set. reflexivity.
Qed.

Lemma get_record_pieces_same_key_witness :
  exists data raw,
    dict_get "data" (grouped_record 1 "x" group_1) = Some (VDict data)
    /\ dict_get_default MATHESAR_GROUP_METADATA data (VDict []) = VDict raw
    /\ [("data",
         VDict [("a", VInt 1); ("b", VStr "x"); (MATHESAR_GROUP_METADATA, group_1);
                ("group_id", VInt 1)])]
       = [("data",
           VDict (dict_set group_id_key (dict_get_default group_id_key raw VNone) data))]
    /\ forall section,
        dict_get "data"
          [("data",
            VDict [("a", VInt 1); ("b", VStr "x"); (MATHESAR_GROUP_METADATA, group_1);
                   ("group_id", VInt 1)])]
        = Some (VDict section) ->
        dict_get MATHESAR_GROUP_METADATA section = dict_get MATHESAR_GROUP_METADATA data.
Proof.
  exact (get_record_pieces_same_key "data" (grouped_record 1 "x" group_1) _ group_1 eq_refl).
Defined.

(** ** Serialising and parsing *)

(** X18: parsing with [json.loads] the text [json.dumps] wrote for a value
    gives the value back, its keys in the order they had; and two values have
    the same text only when they are the same, key for key in the same
    order. *)
Theorem json_round_trip (v w : value) :
  well_formed v = true -> well_formed w = true ->
  loads (dumps v) = Ok v /\ (dumps v = dumps w <-> v = w).
Proof.
  intros Hv Hw. split; [apply loads_dumps; exact Hv |].
  split; [apply dumps_inj; assumption | intros ->; reflexivity].
Qed.

Lemma json_round_trip_witness :
  loads (dumps group_1) = Ok group_1
  /\ (dumps group_1 = dumps group_1_reordered <-> group_1 = group_1_reordered).
Proof.
  apply json_round_trip; reflexivity.
Defined.
